(** * BullBook: order-book reconstruction and the Bybit proxy

    A shallow embedding of
    - the [useOrderBook] hook ([applySnapshot], [applyDelta], [handleMessage]),
    - the [applyDelta] of the [useOrderBookAuto] hook, and
    - the [BybitProxy] class of the backend (subscriptions, snapshot cache,
      broadcast),
    followed by the properties established about them.

    JavaScript values are modelled as the code uses them: price and size are
    strings, a level is a pair [[price, size]], an optional field is an
    [option], a JS [Map] keyed by price is an insertion-ordered association
    list, the insertion-ordered [Set] of subscription keys is a duplicate-free
    list, and the snapshot cache (only read by key) is a [gmap]. *)

From Stdlib Require Import QArith Sorting Ascii DecimalString.
From stdpp Require Import base list strings gmap sorting.

Local Open Scope string_scope.
Local Open Scope list_scope.

(** ** JavaScript numbers, as far as the hooks observe them *)

(** The values [parseFloat] can return.  A finite double is a rational; both
    zeros are [Fin 0] (they are not told apart by [=== 0] or by [sort]). *)
Inductive number : Type :=
  | NaN
  | NegInf
  | Fin (q : Q)
  | PosInf.

(** [x - y].  Only the sign of a difference is ever observed (by [sort]);
    the difference of two finite doubles is zero exactly when they are equal,
    so the exact rational difference has the sign of the rounded one. *)
Definition js_sub (x y : number) : number :=
  match x with
  | NaN => NaN
  | PosInf => match y with NaN | PosInf => NaN | _ => PosInf end
  | NegInf => match y with NaN | NegInf => NaN | _ => NegInf end
  | Fin p =>
      match y with
      | NaN => NaN
      | PosInf => NegInf
      | NegInf => PosInf
      | Fin q => Fin (p - q)
      end
  end.

(** [x === 0] *)
Definition strict_eq_zero (x : number) : bool :=
  match x with
  | Fin q => Qeq_bool q 0
  | _ => false
  end.

(** [x > 0]; false for NaN, which [sort] treats as [+0]. *)
Definition gt_zero (x : number) : bool :=
  match x with
  | PosInf => true
  | Fin q => negb (Qle_bool q 0)
  | _ => false
  end.

Definition is_NaN (x : number) : bool :=
  match x with NaN => true | _ => false end.

(** ** Built-ins used by the hooks *)

(** A price level [[price, size]], both kept as the strings of the feed. *)
Definition level : Type := string * string.

(** [Array.prototype.sort(comparefn)]: a stable sort; [comparefn x y > 0]
    puts [y] before [x], any other result (negative, zero, NaN) keeps [x]
    first.  Elements are inserted from the right, so equal elements keep
    their original order. *)
Fixpoint sort_insert {A} (comparefn : A → A → number) (x : A) (l : list A) : list A :=
  match l with
  | [] => [x]
  | y :: l' =>
      if gt_zero (comparefn x y) then y :: sort_insert comparefn x l'
      else x :: y :: l'
  end.

Fixpoint sort {A} (comparefn : A → A → number) (l : list A) : list A :=
  match l with
  | [] => []
  | x :: l' => sort_insert comparefn x (sort comparefn l')
  end.

(** [arr.slice(0, n)] for a non-negative count [n]. *)
Definition slice0 {A} (n : nat) (l : list A) : list A := take n l.

(** [Map.prototype.set]: an existing key keeps its position and takes the new
    value, a new key is appended. *)
Fixpoint Map_set (price size : string) (m : list level) : list level :=
  match m with
  | [] => [(price, size)]
  | (k, v) :: m' =>
      if bool_decide (k = price) then (price, size) :: m'
      else (k, v) :: Map_set price size m'
  end.

(** [Map.prototype.delete] *)
Definition Map_delete (price : string) (m : list level) : list level :=
  filter (λ e, e.1 ≠ price) m.

(** [new Map(entries)]: the entries are [set] one after the other. *)
Definition Map_new (entries : list level) : list level :=
  fold_left (λ m e, Map_set e.1 e.2 m) entries [].

(** [String.prototype.includes] *)
Fixpoint includes (needle hay : string) : bool :=
  String.prefix needle hay ||
  match hay with
  | EmptyString => false
  | String _ hay' => includes needle hay'
  end.

(** [String.prototype.startsWith] *)
Definition startsWith (pre s : string) : bool := String.prefix pre s.

(** A non-negative integer inside a template literal: its decimal digits. *)
Definition Number_toString (n : nat) : string :=
  NilEmpty.string_of_uint (Nat.to_uint n).

(** [String.prototype.split] on a one-character separator. *)
Fixpoint split (sep : ascii) (s : string) : list string :=
  match s with
  | EmptyString => [""]
  | String c s' =>
      if bool_decide (c = sep) then "" :: split sep s'
      else
        match split sep s' with
        | part :: parts => String c part :: parts
        | [] => [String c ""]
        end
  end.

(** [x || y] on an optional number: [undefined], [null] and [0] are falsy. *)
Definition or_else (x y : option Z) : option Z :=
  match x with
  | Some v => if (v =? 0)%Z then y else Some v
  | None => y
  end.

(** The same with a number on the right ([data.u || 0], [data.ts || Date.now()]). *)
Definition or_num (x : option Z) (y : Z) : Z :=
  match x with
  | Some v => if (v =? 0)%Z then y else v
  | None => y
  end.

(** [v === 1] for a number-or-null. *)
Definition is_one (x : option Z) : bool :=
  match x with
  | Some v => (v =? 1)%Z
  | None => false
  end.

(** [data.b || []] *)
Definition or_empty (l : option (list level)) : list level :=
  match l with
  | Some l => l
  | None => []
  end.

(** ** Messages of the feed *)

(** [message.data]: bid list [b], ask list [a], update id [u], timestamp [ts]. *)
Record Data : Type := mkData {
  data_b : option (list level);
  data_a : option (list level);
  data_u : option Z;
  data_ts : option Z
}.

(** An upstream message: control replies carry [op] (and [success]), data
    messages carry [topic], [type] and [data]. *)
Record Message : Type := mkMessage {
  msg_op : option string;
  msg_success : bool;
  msg_topic : option string;
  msg_type : option string;
  msg_data : Data
}.

(** The two readings of [Date.now()] a handler may take: the first as the
    fallback of [data.ts], the second for [lastUpdate]. *)
Record Clock : Type := mkClock {
  now_ts : Z;
  now_upd : Z
}.

(** ** The [useOrderBook] hook *)

Record OrderBook : Type := mkOrderBook {
  bids : list level;
  asks : list level;
  timestamp : option Z;
  updateId : option Z;
  lastUpdate : option Z
}.

(** The state the hook is created with, and is reset to on a symbol change. *)
Definition emptyBook : OrderBook :=
  {| bids := []; asks := []; timestamp := None; updateId := None; lastUpdate := None |}.

Record HookState : Type := mkHookState {
  orderBook : OrderBook;
  isLoading : bool;
  paused : bool
}.

Definition initialState : HookState :=
  {| orderBook := emptyBook; isLoading := true; paused := false |}.

(** The book [applySnapshot] passes to [setOrderBook]. *)
Definition applySnapshot (clk : Clock) (data : Data) : OrderBook :=
  let updateId := or_num (data_u data) 0 in
  {| bids := or_empty (data_b data);
     asks := or_empty (data_a data);
     timestamp := Some (or_num (data_ts data) (now_ts clk));
     updateId := Some updateId;
     lastUpdate := Some (now_upd clk) |}.

Section Hook.
(** [parseFloat] is the host's; the hooks are modelled over any such
    function. *)
Variable parseFloat : string → number.

(** The body of [data.b.forEach] / [data.a.forEach]. *)
Definition applyEntry (m : list level) (e : level) : list level :=
  let '(price, size) := e in
  if strict_eq_zero (parseFloat size) then Map_delete price m
  else Map_set price size m.

Definition applyDelta (depth : nat) (clk : Clock) (data : Data)
    (currentBook : OrderBook) : OrderBook :=
  let updateId := or_else (data_u data) (updateId currentBook) in
  if is_one updateId then
    {| bids := or_empty (data_b data);
       asks := or_empty (data_a data);
       timestamp := Some (or_num (data_ts data) (now_ts clk));
       updateId := updateId;
       lastUpdate := Some (now_upd clk) |}
  else
    let newBids :=
      match data_b data with
      | Some ((_ :: _) as b) =>
          let bidMap := Map_new (bids currentBook) in
          let bidMap := fold_left applyEntry b bidMap in
          slice0 depth
            (sort (λ a b, js_sub (parseFloat b.1) (parseFloat a.1)) bidMap)
      | _ => bids currentBook
      end in
    let newAsks :=
      match data_a data with
      | Some ((_ :: _) as a) =>
          let askMap := Map_new (asks currentBook) in
          let askMap := fold_left applyEntry a askMap in
          slice0 depth
            (sort (λ a b, js_sub (parseFloat a.1) (parseFloat b.1)) askMap)
      | _ => asks currentBook
      end in
    {| bids := newBids;
       asks := newAsks;
       timestamp := Some (or_num (data_ts data) (now_ts clk));
       updateId := updateId;
       lastUpdate := Some (now_upd clk) |}.

(** The listener the hook registers for [symbol] and [depth]. *)
Definition handleMessage (symbol : string) (depth : nat) (clk : Clock)
    (st : HookState) (message : Message) : HookState :=
  if paused st then st
  else
    match msg_topic message with
    | None => st
    | Some topic =>
        if bool_decide (topic = "")
           || negb (includes symbol topic)
           || negb (includes ("orderbook." ++ Number_toString depth ++ ".") topic)
        then st
        else if bool_decide (msg_type message = Some "snapshot") then
          {| orderBook := applySnapshot clk (msg_data message);
             isLoading := false;
             paused := paused st |}
        else if bool_decide (msg_type message = Some "delta") then
          {| orderBook := applyDelta depth clk (msg_data message) (orderBook st);
             isLoading := isLoading st;
             paused := paused st |}
        else st
    end.

(** Messages handled in arrival order, each with the clock readings taken
    while it is handled. *)
Definition handleAll (symbol : string) (depth : nat)
    (msgs : list (Clock * Message)) (st : HookState) : HookState :=
  fold_left (λ st cm, handleMessage symbol depth cm.1 st cm.2) msgs st.
End Hook.

(** ** A host [parseFloat] for decimal literals

    The longest prefix of the string, leading ASCII white space skipped, that
    is a [StrDecimalLiteral]:
    an optional sign, then [Infinity], or digits with an optional fraction and
    an optional exponent; [NaN] when there is none.  The value is the exact
    decimal value of the literal. *)

Definition digit_of (c : ascii) : option Z :=
  let n := nat_of_ascii c in
  if (48 <=? n)%nat && (n <=? 57)%nat then Some (Z.of_nat (n - 48)) else None.

Fixpoint read_digits (s : string) (acc : Z) (cnt : nat) : Z * nat * string :=
  match s with
  | String c s' =>
      match digit_of c with
      | Some d => read_digits s' (10 * acc + d)%Z (S cnt)
      | None => (acc, cnt, s)
      end
  | EmptyString => (acc, cnt, s)
  end.

Definition is_white (c : ascii) : bool :=
  let n := nat_of_ascii c in
  (n =? 32)%nat || ((9 <=? n)%nat && (n <=? 13)%nat).

Fixpoint skip_white (s : string) : string :=
  match s with
  | String c s' => if is_white c then skip_white s' else s
  | EmptyString => s
  end.

Definition read_sign (s : string) : bool * string :=
  match s with
  | String "-" s' => (true, s')
  | String "+" s' => (false, s')
  | _ => (false, s)
  end.

Definition read_exponent (s : string) : Z :=
  match s with
  | String c s' =>
      if bool_decide (c = "e"%char) || bool_decide (c = "E"%char) then
        let '(neg, s2) := read_sign s' in
        let '(v, cnt, _) := read_digits s2 0 0 in
        if (cnt =? 0)%nat then 0%Z else if neg then (- v)%Z else v
      else 0%Z
  | EmptyString => 0%Z
  end.

Definition hostParseFloat (s : string) : number :=
  let s := skip_white s in
  let '(neg, s) := read_sign s in
  if String.prefix "Infinity" s then (if neg then NegInf else PosInf)
  else
    let '(i, ni, s) := read_digits s 0 0 in
    let '(f, nf, s) :=
      match s with
      | String "." s' => read_digits s' 0 0
      | _ => (0%Z, 0%nat, s)
      end in
    if (ni + nf =? 0)%nat then NaN
    else
      let e := read_exponent s in
      let mant := (inject_Z i + inject_Z f / inject_Z (10 ^ Z.of_nat nf))%Q in
      let v := (mant * Qpower (inject_Z 10) e)%Q in
      Fin (if neg then (- v)%Q else v).

(** ** The [applyDelta] of the [useOrderBookAuto] hook *)

Module Auto.

(** [sourceInfo]: the selected source and [depths[manualSource]], which is
    [undefined] for a source outside the table. *)
Record SourceInfo : Type := mkSourceInfo {
  source : string;
  depth : option nat
}.

Definition depths (manualSource : string) : option nat :=
  if bool_decide (manualSource = "L50") then Some 50%nat
  else if bool_decide (manualSource = "L200") then Some 200%nat
  else if bool_decide (manualSource = "L1000") then Some 1000%nat
  else None.

Definition sourceInfo (manualSource : string) : SourceInfo :=
  {| source := manualSource; depth := depths manualSource |}.

(** [arr.slice(0, end)]: an [undefined] end keeps the whole array. *)
Definition slice0 {A} (n : option nat) (l : list A) : list A :=
  match n with
  | Some n => take n l
  | None => l
  end.

Section AutoHook.
Variable parseFloat : string → number.

(** The new book, and the argument of [setCurrentPrice] when it is
    called. *)
Definition applyDelta (sourceInfo : SourceInfo) (clk : Clock) (data : Data)
    (currentBook : OrderBook) : OrderBook * option number :=
  let updateId := or_else (data_u data) (updateId currentBook) in
  if is_one updateId then
    ({| bids := or_empty (data_b data);
        asks := or_empty (data_a data);
        timestamp := Some (or_num (data_ts data) (now_ts clk));
        updateId := updateId;
        lastUpdate := Some (now_upd clk) |}, None)
  else
    let newBids :=
      match data_b data with
      | Some ((_ :: _) as b) =>
          let bidMap := Map_new (bids currentBook) in
          let bidMap :=
            fold_left
              (λ m '(price, size),
                 if strict_eq_zero (parseFloat size) then Map_delete price m
                 else Map_set price size m)
              b bidMap in
          slice0 (depth sourceInfo)
            (sort (λ a b, js_sub (parseFloat b.1) (parseFloat a.1)) bidMap)
      | _ => bids currentBook
      end in
    let newAsks :=
      match data_a data with
      | Some ((_ :: _) as a) =>
          let askMap := Map_new (asks currentBook) in
          let askMap :=
            fold_left
              (λ m '(price, size),
                 if strict_eq_zero (parseFloat size) then Map_delete price m
                 else Map_set price size m)
              a askMap in
          slice0 (depth sourceInfo)
            (sort (λ a b, js_sub (parseFloat a.1) (parseFloat b.1)) askMap)
      | _ => asks currentBook
      end in
    let newBook :=
      {| bids := newBids;
         asks := newAsks;
         timestamp := Some (or_num (data_ts data) (now_ts clk));
         updateId := updateId;
         lastUpdate := Some (now_upd clk) |} in
    (newBook,
     match newBids with
     | e :: _ => Some (parseFloat e.1)
     | [] => None
     end).
End AutoHook.

End Auto.
(** ** The backend proxy ([BybitProxy]) *)

Module Proxy.

Inductive ReadyState : Type := CONNECTING | OPEN | CLOSING | CLOSED.

Global Instance ReadyState_eq_dec : EqDecision ReadyState.
Proof. solve_decision. Defined.

(** What the proxy sends upstream. *)
Inductive Request : Type :=
  | Subscribe (args : list string)
  | Unsubscribe (args : list string)
  | Ping.

(** The upstream socket: its state and the requests passed to its [send],
    oldest first. *)
Record BybitWs : Type := mkBybitWs {
  ws_readyState : ReadyState;
  ws_sent : list Request
}.

(** What the proxy sends downstream: [JSON.stringify] of an upstream
    message, of a pong, or of a subscription acknowledgment. *)
Inductive Payload : Type :=
  | JsonMessage (message : Message)
  | JsonPong (timestamp : Z)
  | JsonSubscribed (symbols : list string) (depth : nat).

(** A downstream socket: its state and the payloads passed to its [send],
    oldest first. *)
Record Client : Type := mkClient {
  readyState : ReadyState;
  sent : list Payload
}.

(** A message of a downstream client. *)
Record ClientData : Type := mkClientData {
  cd_type : option string;
  cd_action : option string;
  cd_symbols : option (list string);
  cd_depth : option nat
}.

Record BybitProxy : Type := mkBybitProxy {
  bybitWs : option BybitWs;
  clientWss : option (list Client);
  subscribedSymbols : list string;
  reconnectTimeout : bool;
  heartbeatInterval : bool;
  snapshotCache : gmap string Message
}.

(** The constructor. *)
Definition new : BybitProxy :=
  {| bybitWs := None; clientWss := None; subscribedSymbols := [];
     reconnectTimeout := false; heartbeatInterval := false;
     snapshotCache := ∅ |}.

(** [Set.prototype.add] / [delete] on the insertion-ordered set. *)
Definition Set_add (x : string) (s : list string) : list string :=
  if bool_decide (x ∈ s) then s else s ++ [x].

Definition Set_delete (x : string) (s : list string) : list string :=
  filter (λ y, y ≠ x) s.

Definition bybit_send (r : Request) (p : BybitProxy) : BybitProxy :=
  {| bybitWs := (λ ws, {| ws_readyState := ws_readyState ws;
                          ws_sent := ws_sent ws ++ [r] |}) <$> bybitWs p;
     clientWss := clientWss p;
     subscribedSymbols := subscribedSymbols p;
     reconnectTimeout := reconnectTimeout p;
     heartbeatInterval := heartbeatInterval p;
     snapshotCache := snapshotCache p |}.

Definition set_subscribedSymbols (s : list string) (p : BybitProxy) : BybitProxy :=
  {| bybitWs := bybitWs p;
     clientWss := clientWss p;
     subscribedSymbols := s;
     reconnectTimeout := reconnectTimeout p;
     heartbeatInterval := heartbeatInterval p;
     snapshotCache := snapshotCache p |}.

Definition set_clients (cs : option (list Client)) (p : BybitProxy) : BybitProxy :=
  {| bybitWs := bybitWs p;
     clientWss := cs;
     subscribedSymbols := subscribedSymbols p;
     reconnectTimeout := reconnectTimeout p;
     heartbeatInterval := heartbeatInterval p;
     snapshotCache := snapshotCache p |}.

Definition client_push (x : Payload) (c : Client) : Client :=
  {| readyState := readyState c; sent := sent c ++ [x] |}.

(** [ws.send(x)] on the downstream socket number [ws]. *)
Definition client_send (ws : nat) (x : Payload) (p : BybitProxy) : BybitProxy :=
  set_clients (alter (client_push x) ws <$> clientWss p) p.

Definition is_open (p : BybitProxy) : bool :=
  match bybitWs p with
  | Some ws => bool_decide (ws_readyState ws = OPEN)
  | None => false
  end.

Definition subscribeToSymbols (symbols : list string) (depth : nat)
    (p : BybitProxy) : BybitProxy :=
  if negb (is_open p) then p
  else
    let newSymbols :=
      filter (λ symbol : string,
                (symbol ++ "-" ++ Number_toString depth)%string ∉ subscribedSymbols p)
             symbols in
    match newSymbols with
    | [] => p
    | _ :: _ =>
        let args :=
          map (λ symbol : string,
                 ("orderbook." ++ Number_toString depth ++ "." ++ symbol)%string)
              newSymbols in
        let p := bybit_send (Subscribe args) p in
        set_subscribedSymbols
          (fold_left
             (λ s (symbol : string), Set_add (symbol ++ "-" ++ Number_toString depth)%string s)
             newSymbols (subscribedSymbols p))
          p
    end.

Definition unsubscribeFromSymbols (symbols : list string) (depth : nat)
    (p : BybitProxy) : BybitProxy :=
  if negb (is_open p) then p
  else
    let subscribed :=
      filter (λ symbol : string,
                (symbol ++ "-" ++ Number_toString depth)%string ∈ subscribedSymbols p)
             symbols in
    match subscribed with
    | [] => p
    | _ :: _ =>
        let args :=
          map (λ symbol : string,
                 ("orderbook." ++ Number_toString depth ++ "." ++ symbol)%string)
              subscribed in
        let p := bybit_send (Unsubscribe args) p in
        set_subscribedSymbols
          (fold_left
             (λ s (symbol : string), Set_delete (symbol ++ "-" ++ Number_toString depth)%string s)
             subscribed (subscribedSymbols p))
          p
    end.

(** [connectToBybit]: the old socket, if any, is terminated and a new one
    is created; its handlers are [on_open], [handleBybitMessage] (for a
    message that parses) and [on_close] below. *)
Definition connectToBybit (p : BybitProxy) : BybitProxy :=
  {| bybitWs := Some {| ws_readyState := CONNECTING; ws_sent := [] |};
     clientWss := clientWss p;
     subscribedSymbols := subscribedSymbols p;
     reconnectTimeout := reconnectTimeout p;
     heartbeatInterval := heartbeatInterval p;
     snapshotCache := snapshotCache p |}.

(** The ['open'] handler; the socket is [OPEN] when it runs.  The
    resubscription passes the stored keys as [symbols] and leaves [depth]
    to its default. *)
Definition on_open (p : BybitProxy) : BybitProxy :=
  let p :=
    {| bybitWs := (λ ws, {| ws_readyState := OPEN; ws_sent := ws_sent ws |})
                    <$> bybitWs p;
       clientWss := clientWss p;
       subscribedSymbols := subscribedSymbols p;
       reconnectTimeout := reconnectTimeout p;
       heartbeatInterval := true;
       snapshotCache := snapshotCache p |} in
  match subscribedSymbols p with
  | [] => p
  | _ :: _ => subscribeToSymbols (subscribedSymbols p) 50 p
  end.

(** The ['close'] handler: the heartbeat stops and a reconnection is
    scheduled. *)
Definition on_close (p : BybitProxy) : BybitProxy :=
  {| bybitWs := (λ ws, {| ws_readyState := CLOSED; ws_sent := ws_sent ws |})
                  <$> bybitWs p;
     clientWss := clientWss p;
     subscribedSymbols := subscribedSymbols p;
     reconnectTimeout := true;
     heartbeatInterval := false;
     snapshotCache := snapshotCache p |}.

(** [broadcast]: the same serialized message to every client whose socket
    is open. *)
Definition broadcast (message : Message) (p : BybitProxy) : BybitProxy :=
  match clientWss p with
  | None => p
  | Some clients =>
      let data := JsonMessage message in
      set_clients
        (Some (map (λ client,
                      if bool_decide (readyState client = OPEN)
                      then client_push data client else client)
                   clients))
        p
  end.

(** [parts[i]] inside a template literal. *)
Definition part (parts : list string) (i : nat) : string :=
  default "undefined" (parts !! i).

(** The cache key [handleBybitMessage] derives from a topic. *)
Definition cacheKey (topic : string) : string :=
  let parts := split "."%char topic in
  let depth := part parts 1 in
  let symbol := part parts 2 in
  (symbol ++ "-" ++ depth)%string.

Definition handleBybitMessage (message : Message) (p : BybitProxy) : BybitProxy :=
  if bool_decide (msg_op message = Some "pong") then p
  else if bool_decide (msg_op message = Some "subscribe") then p
  else
    match msg_topic message with
    | Some topic =>
        if startsWith "orderbook" topic then
          let p :=
            if bool_decide (msg_type message = Some "snapshot") then
              {| bybitWs := bybitWs p;
                 clientWss := clientWss p;
                 subscribedSymbols := subscribedSymbols p;
                 reconnectTimeout := reconnectTimeout p;
                 heartbeatInterval := heartbeatInterval p;
                 snapshotCache := <[cacheKey topic := message]> (snapshotCache p) |}
            else p in
          broadcast message p
        else p
    | None => p
    end.

(** [depth || 50] *)
Definition orderDepth (depth : option nat) : nat :=
  match depth with
  | Some (S n) => S n
  | _ => 50
  end.

(** [handleClientMessage(ws, data)], [now] being the reading of
    [Date.now()] for a pong. *)
Definition handleClientMessage (now : Z) (ws : nat) (data : ClientData)
    (p : BybitProxy) : BybitProxy :=
  if bool_decide (cd_type data = Some "ping") then
    client_send ws (JsonPong now) p
  else
    let orderDepth := orderDepth (cd_depth data) in
    let p :=
      match cd_symbols data with
      | Some symbols =>
          if bool_decide (cd_action data = Some "subscribe") then
            let p := subscribeToSymbols symbols orderDepth p in
            let p :=
              fold_left
                (λ p (symbol : string),
                   let cacheKey :=
                     (symbol ++ "-" ++ Number_toString orderDepth)%string in
                   match snapshotCache p !! cacheKey with
                   | Some cachedSnapshot =>
                       client_send ws (JsonMessage cachedSnapshot) p
                   | None => p
                   end)
                symbols p in
            client_send ws (JsonSubscribed symbols orderDepth) p
          else p
      | None => p
      end in
    match cd_symbols data with
    | Some symbols =>
        if bool_decide (cd_action data = Some "unsubscribe") then
          unsubscribeFromSymbols symbols orderDepth p
        else p
    | None => p
    end.


End Proxy.

(** ** Vocabulary of the properties *)

(** [x] is not greater than [y]: [x - y > 0] is false. *)
Definition num_le (x y : number) : Prop := gt_zero (js_sub x y) = false.

(** [x] is less than [y]: [y - x > 0]. *)
Definition num_lt (x y : number) : Prop := gt_zero (js_sub y x) = true.

(** [x] may stay in front of [y] under [comparefn]. *)
Definition before {A} (comparefn : A → A → number) (x y : A) : Prop :=
  gt_zero (comparefn x y) = false.

Section Vocabulary.
Variable parseFloat : string → number.

Definition nonzero_size (e : level) : Prop :=
  strict_eq_zero (parseFloat e.2) = false.

Definition numeric_price (e : level) : Prop :=
  is_NaN (parseFloat e.1) = false.

(** Sorted by parsed price, ties allowed. *)
Definition descending (l : list level) : Prop :=
  StronglySorted (λ x y, num_le (parseFloat y.1) (parseFloat x.1)) l.

Definition ascending (l : list level) : Prop :=
  StronglySorted (λ x y, num_le (parseFloat x.1) (parseFloat y.1)) l.

(** Sorted by parsed price, no two levels at the same parsed price. *)
Definition strictly_descending (l : list level) : Prop :=
  StronglySorted (λ x y, num_lt (parseFloat y.1) (parseFloat x.1)) l.

Definition strictly_ascending (l : list level) : Prop :=
  StronglySorted (λ x y, num_lt (parseFloat x.1) (parseFloat y.1)) l.

(** The comparators of [applyDelta]. *)
Definition compareBids (a b : level) : number :=
  js_sub (parseFloat b.1) (parseFloat a.1).

Definition compareAsks (a b : level) : number :=
  js_sub (parseFloat a.1) (parseFloat b.1).
End Vocabulary.

(** No two levels under the same price string. *)
Definition distinct_keys (l : list level) : Prop := NoDup l.*1.

(** The entries [set] one after the other onto a map. *)
Definition Map_setAll (entries : list level) (m : list level) : list level :=
  fold_left (λ m e, Map_set e.1 e.2 m) entries m.

(** The size the last entry for [price] in [entries] carries. *)
Fixpoint last_size (entries : list level) (price : string) : option string :=
  match entries with
  | [] => None
  | (k, v) :: entries' =>
      match last_size entries' price with
      | Some s => Some s
      | None => if bool_decide (k = price) then Some v else None
      end
  end.

(** A level with its size replaced by the one [entries] give its price. *)
Definition overwrite (entries : list level) (e : level) : level :=
  (e.1, default e.2 (last_size entries e.1)).

(** What the non-sentinel branch of [applyDelta] does to one side: nothing
    for an empty entry list, else rebuild, patch, sort and trim. *)
Definition patchSide (parseFloat : string → number)
    (comparefn : level → level → number) (depth : nat)
    (entries current : list level) : list level :=
  match entries with
  | [] => current
  | _ :: _ =>
      slice0 depth
        (sort comparefn (fold_left (applyEntry parseFloat) entries (Map_new current)))
  end.

(** The cache key of a message with a topic. *)
Definition cacheKey_of (m : Message) : option string :=
  Proxy.cacheKey <$> msg_topic m.

(** The bid entries of a message, [[]] when it has none. *)
Definition data_b_entries (d : Data) : list level := or_empty (data_b d).

(** A data message as the feed sends it. *)
Definition dataMessage (topic type : string) (data : Data) : Message :=
  {| msg_op := None; msg_success := false; msg_topic := Some topic;
     msg_type := Some type; msg_data := data |}.

(** The listener of [handleMessage] for [symbol] and [depth] lets the
    message through. *)
Definition addressed (symbol : string) (depth : nat) (message : Message) : Prop :=
  ∃ topic, msg_topic message = Some topic ∧ topic ≠ "" ∧
    includes symbol topic = true ∧
    includes ("orderbook." ++ Number_toString depth ++ ".") topic = true.



(** An order-book data message: [handleBybitMessage] reaches its last
    branch and takes it. *)
Definition orderbook_data (m : Message) : Prop :=
  msg_op m ≠ Some "pong" ∧ msg_op m ≠ Some "subscribe" ∧
  ∃ topic, msg_topic m = Some topic ∧ startsWith "orderbook" topic = true.

(** An order-book snapshot whose topic gives the cache key [key]. *)
Definition snapshot_for (key : string) (m : Message) : Prop :=
  orderbook_data m ∧ msg_type m = Some "snapshot" ∧
  cacheKey_of m = Some key.

(** The caching step of [handleBybitMessage]. *)
Definition cache_snapshot (m : Message) (p : Proxy.BybitProxy) : Proxy.BybitProxy :=
  if bool_decide (msg_type m = Some "snapshot") then
    {| Proxy.bybitWs := Proxy.bybitWs p;
       Proxy.clientWss := Proxy.clientWss p;
       Proxy.subscribedSymbols := Proxy.subscribedSymbols p;
       Proxy.reconnectTimeout := Proxy.reconnectTimeout p;
       Proxy.heartbeatInterval := Proxy.heartbeatInterval p;
       Proxy.snapshotCache :=
         <[default "" (cacheKey_of m) := m]> (Proxy.snapshotCache p) |}
  else p.

(** What [broadcast] does to one client. *)
Definition deliver (m : Message) (c : Proxy.Client) : Proxy.Client :=
  if bool_decide (Proxy.readyState c = Proxy.OPEN)
  then Proxy.client_push (Proxy.JsonMessage m) c else c.

(** The client behind socket number [ws]. *)
Definition client_at (ws : nat) (p : Proxy.BybitProxy) : option Proxy.Client :=
  Proxy.clientWss p ≫= (λ cs, cs !! ws).

(** The key under which a subscriber to [symbol] at [depth] looks up the
    cache, and the topic the proxy subscribes to for it. *)
Definition key_of (symbol : string) (depth : nat) : string :=
  (symbol ++ "-" ++ Number_toString depth)%string.

Definition topic_of (symbol : string) (depth : nat) : string :=
  ("orderbook." ++ Number_toString depth ++ "." ++ symbol)%string.

(** The cached snapshots [handleClientMessage] sends for [symbols]. *)
Definition cached_for (cache : gmap string Message) (symbols : list string)
    (depth : nat) : list Proxy.Payload :=
  omap (λ symbol, Proxy.JsonMessage <$> cache !! key_of symbol depth) symbols.

Section Invariant.
Variable parseFloat : string → number.

(** The invariant as claimed for a book: no zero sizes, at most [depth]
    levels a side, bids strictly descending and asks strictly ascending. *)
Definition claimed_invariant (depth : nat) (B : OrderBook) : Prop :=
  Forall (nonzero_size parseFloat) (bids B) ∧
  Forall (nonzero_size parseFloat) (asks B) ∧
  (length (bids B) ≤ depth)%nat ∧ (length (asks B) ≤ depth)%nat ∧
  strictly_descending parseFloat (bids B) ∧
  strictly_ascending parseFloat (asks B).

(** What the hook maintains for one side: no zero sizes, at most [depth]
    levels, in order (ties allowed), one level per price string, every
    price a number. *)
Definition side_ok (inOrder : list level → Prop) (depth : nat)
    (l : list level) : Prop :=
  Forall (nonzero_size parseFloat) l ∧ (length l ≤ depth)%nat ∧ inOrder l ∧
  distinct_keys l ∧ Forall (numeric_price parseFloat) l.

Definition book_ok (depth : nat) (B : OrderBook) : Prop :=
  side_ok (descending parseFloat) depth (bids B) ∧
  side_ok (ascending parseFloat) depth (asks B).

End Invariant.

(** ** Sample data *)

Definition clock0 : Clock := {| now_ts := 1700000000000; now_upd := 1700000000001 |}.
Definition clock1 : Clock := {| now_ts := 1700000000020; now_upd := 1700000000021 |}.

(** The scenario: snapshot [{b:[["100","5"]], a:[["101","3"]], u:10}], then
    delta [{b:[["100","0"],["99","2"]], u:11}]. *)
Definition scenario_snapshot : Data :=
  {| data_b := Some [("100", "5")]; data_a := Some [("101", "3")];
     data_u := Some 10%Z; data_ts := None |}.


(** A delta that only sets sizes. *)
Definition upsert_delta : Data :=
  {| data_b := Some [("100", "7"); ("98.5", "1")]; data_a := Some [("101", "4")];
     data_u := Some 12%Z; data_ts := Some 1700000000010%Z |}.

(** A delta with the restart sentinel. *)
Definition restart_delta : Data :=
  {| data_b := Some [("100", "0")]; data_a := Some [("102", "1")];
     data_u := Some 1%Z; data_ts := Some 1700000000030%Z |}.

Definition two_level_book : OrderBook :=
  {| bids := [("100", "5"); ("99", "2")]; asks := [("101", "3")];
     timestamp := Some 1700000000000%Z; updateId := Some 10%Z;
     lastUpdate := Some 1700000000001%Z |}.

Definition sample_topic : string := "orderbook.50.BTCUSDT".

(** A snapshot that carries a cancelled level. *)
Definition snapshot_with_zero : Data :=
  {| data_b := Some [("100", "0"); ("99", "2")]; data_a := Some [("101", "3")];
     data_u := Some 10%Z; data_ts := Some 1700000000000%Z |}.

(** A snapshot of two bid levels. *)
Definition two_level_snapshot : Data :=
  {| data_b := Some [("100", "5"); ("99", "2")]; data_a := Some [("101", "3")];
     data_u := Some 10%Z; data_ts := Some 1700000000000%Z |}.

(** A snapshot with its bids in ascending order. *)
Definition snapshot_unsorted : Data :=
  {| data_b := Some [("99", "2"); ("100", "5")]; data_a := Some [("101", "3")];
     data_u := Some 10%Z; data_ts := Some 1700000000000%Z |}.

(** A delta that names the price 100 by another string. *)
Definition delta_same_price : Data :=
  {| data_b := Some [("100.0", "1")]; data_a := None;
     data_u := Some 11%Z; data_ts := Some 1700000000010%Z |}.

(** A first message that is a delta. *)
Definition first_delta : Data :=
  {| data_b := Some [("100", "5"); ("99", "2")]; data_a := Some [("101", "3")];
     data_u := Some 11%Z; data_ts := Some 1700000000010%Z |}.




(** A client's request to subscribe. *)
Definition subscribe_request (symbols : list string) (depth : nat) : Proxy.ClientData :=
  {| Proxy.cd_type := None; Proxy.cd_action := Some "subscribe";
     Proxy.cd_symbols := Some symbols; Proxy.cd_depth := Some depth |}.

(** A proxy with one client, connected upstream, after that client has
    subscribed to BTCUSDT at depth 200. *)
Definition proxy_subscribed : Proxy.BybitProxy :=
  Proxy.handleClientMessage 0 0 (subscribe_request ["BTCUSDT"] 200)
    (Proxy.on_open
       (Proxy.connectToBybit
          (Proxy.set_clients (Some [Proxy.mkClient Proxy.OPEN []]) Proxy.new))).

(** The same proxy after the upstream connection closed, was made anew and
    opened. *)
Definition proxy_reconnected : Proxy.BybitProxy :=
  Proxy.on_open (Proxy.connectToBybit (Proxy.on_close proxy_subscribed)).


(** ** Further vocabulary: the proxy's events *)

(** The callback of the heartbeat interval: a ping, if the upstream socket
    is there and open. *)
Definition heartbeat_tick (p : Proxy.BybitProxy) : Proxy.BybitProxy :=
  if Proxy.is_open p then Proxy.bybit_send Proxy.Ping p else p.

(** What can happen to the proxy once its server is up: the upstream
    socket opens or closes, an upstream message that parses arrives, the
    reconnect timeout or the heartbeat interval fires, a client message that
    parses arrives. *)
Inductive ProxyEvent : Type :=
  | BybitOpen
  | BybitClose
  | BybitMessage (m : Message)
  | ReconnectTimer
  | HeartbeatTimer
  | ClientMessage (now : Z) (ws : nat) (data : Proxy.ClientData).

Definition proxy_step (p : Proxy.BybitProxy) (e : ProxyEvent) : Proxy.BybitProxy :=
  match e with
  | BybitOpen => Proxy.on_open p
  | BybitClose => Proxy.on_close p
  | BybitMessage m => Proxy.handleBybitMessage m p
  | ReconnectTimer => Proxy.connectToBybit p
  | HeartbeatTimer => heartbeat_tick p
  | ClientMessage now ws data => Proxy.handleClientMessage now ws data p
  end.

Definition proxy_run (es : list ProxyEvent) (p : Proxy.BybitProxy) : Proxy.BybitProxy :=
  fold_left proxy_step es p.

(** [m] is an order-book snapshot that [handleBybitMessage] caches under
    [key]. *)
Definition caches (key : string) (m : Message) : bool :=
  negb (bool_decide (msg_op m = Some "pong"))
  && negb (bool_decide (msg_op m = Some "subscribe"))
  && bool_decide (msg_type m = Some "snapshot")
  && match msg_topic m with
     | Some topic =>
         startsWith "orderbook" topic && bool_decide (Proxy.cacheKey topic = key)
     | None => false
     end.

(** The last upstream message among [es] cached under [key], [acc] if there
    is none. *)
Definition last_snapshot (key : string) (es : list ProxyEvent)
    (acc : option Message) : option Message :=
  fold_left
    (λ acc e,
       match e with
       | BybitMessage m => if caches key m then Some m else acc
       | _ => acc
       end) es acc.

(** The upstream requests sent so far on the current socket. *)
Definition upstream_sent (p : Proxy.BybitProxy) : list Proxy.Request :=
  default [] (Proxy.ws_sent <$> Proxy.bybitWs p).

(** The keys [symbols] have at [depth]. *)
Definition keys_of (symbols : list string) (depth : nat) : list string :=
  (λ symbol, key_of symbol depth) <$> symbols.

(** A client's request to unsubscribe. *)
Definition unsubscribe_request (symbols : list string) (depth : nat) : Proxy.ClientData :=
  {| Proxy.cd_type := None; Proxy.cd_action := Some "unsubscribe";
     Proxy.cd_symbols := Some symbols; Proxy.cd_depth := Some depth |}.

(** A proxy with two open clients, connected upstream, nothing subscribed. *)
Definition proxy_ready : Proxy.BybitProxy :=
  Proxy.on_open
    (Proxy.connectToBybit
       (Proxy.set_clients
          (Some [Proxy.mkClient Proxy.OPEN []; Proxy.mkClient Proxy.OPEN []])
          Proxy.new)).

(** The same proxy with its upstream connection lost. *)
Definition proxy_down : Proxy.BybitProxy := Proxy.on_close proxy_ready.

(** ** Further vocabulary: the hook *)

(** [Map.prototype.get] *)
Fixpoint Map_get (price : string) (m : list level) : option string :=
  match m with
  | [] => None
  | (k, v) :: m' => if bool_decide (k = price) then Some v else Map_get price m'
  end.

(** The rebuilt and patched map of the non-sentinel branch of [applyDelta],
    before it is sorted and trimmed. *)
Definition patchedMap (parseFloat : string → number) (entries current : list level)
    : list level :=
  fold_left (applyEntry parseFloat) entries (Map_new current).

(** A book as a faulty feed might leave it: out of order, a price string
    twice, deeper than any depth in use. *)
Definition disordered_book : OrderBook :=
  {| bids := [("98", "1"); ("100", "5"); ("99", "2"); ("100", "6"); ("97", "3")];
     asks := [("103", "1"); ("101", "3"); ("102", "2")];
     timestamp := Some 1700000000000%Z; updateId := Some 10%Z;
     lastUpdate := Some 1700000000001%Z |}.


(** ** Frames with and without [data] *)

(** What [JSON.parse] hands to the listeners: a message with its [data], or
    one that has a topic and a type at most and no [data]. *)
Inductive Parsed : Type :=
  | WithData (message : Message)
  | NoData (topic type : option string).

(** The topic filter of the listener for [symbol] and [depth]. *)
Definition lets_through (symbol : string) (depth : nat) (topic : string) : Prop :=
  topic ≠ "" ∧ includes symbol topic = true ∧
  includes ("orderbook." ++ Number_toString depth ++ ".") topic = true.

(** The listener on a parsed frame.  On a frame without [data] that gets
    through, [applySnapshot] throws at [data.u] before it sets any state and
    [onmessage] of the provider catches it, so the state stays; the updater
    that a delta hands to [setOrderBook] throws when React runs it, and what
    becomes of the hook then is not the hook's to say: [None]. *)
Definition listen (parseFloat : string → number) (symbol : string) (depth : nat)
    (clk : Clock) (st : HookState) (frame : Parsed) : option HookState :=
  match frame with
  | WithData message => Some (handleMessage parseFloat symbol depth clk st message)
  | NoData topic type =>
      if paused st then Some st
      else
        match topic with
        | None => Some st
        | Some topic =>
            if bool_decide (topic = "")
               || negb (includes symbol topic)
               || negb (includes ("orderbook." ++ Number_toString depth ++ ".") topic)
            then Some st
            else if bool_decide (type = Some "snapshot") then Some st
            else if bool_decide (type = Some "delta") then None
            else Some st
        end
  end.

(** Frames handled in arrival order, as long as the hook is there. *)
Fixpoint listenAll (parseFloat : string → number) (symbol : string) (depth : nat)
    (frames : list (Clock * Parsed)) (st : HookState) : option HookState :=
  match frames with
  | [] => Some st
  | (clk, frame) :: frames' =>
      match listen parseFloat symbol depth clk st frame with
      | Some st' => listenAll parseFloat symbol depth frames' st'
      | None => None
      end
  end.

(** Some frame of the run is a snapshot with [data] that the listener lets
    through. *)
Definition snapshot_with_data_seen (symbol : string) (depth : nat)
    (frames : list (Clock * Parsed)) : Prop :=
  ∃ clk m, (clk, WithData m) ∈ frames ∧ addressed symbol depth m
           ∧ msg_type m = Some "snapshot".

(** Some frame of the run is a delta without [data] on a topic that the
    listener lets through. *)
Definition delta_without_data_passed (symbol : string) (depth : nat)
    (frames : list (Clock * Parsed)) : Prop :=
  ∃ clk topic, (clk, NoData (Some topic) (Some "delta")) ∈ frames
               ∧ lets_through symbol depth topic.

(** ** Further vocabulary: one side of the book *)

(** [kept] is what a cut to [depth] levels leaves of [all] when the best
    come first: a part of [all] of the cut's length, every level of which is
    at least as good as every level left out. *)
Definition best_of (better : level → level → Prop) (depth : nat)
    (kept all : list level) : Prop :=
  kept ⊆ all
  ∧ length kept = Nat.min depth (length all)
  ∧ ∀ k x, k ∈ kept → x ∈ all → x ∉ kept → better k x.

(** A delta for both sides that fits the depth left by
    [two_level_book]. *)
Definition mixed_delta : Data :=
  {| data_b := Some [("100", "0"); ("98", "4"); ("98", "7")];
     data_a := Some [("101", "9")];
     data_u := Some 12%Z; data_ts := Some 1700000000500%Z |}.

(** What a patch by [entries] makes of [price] on a side [current]: the
    last entry for the price decides, by its size, and a price the entries
    do not mention stays as it is. *)
Definition upserted (parseFloat : string → number) (entries current : list level)
    (price size : string) : Prop :=
  match last_size entries price with
  | Some s => strict_eq_zero (parseFloat s) = false ∧ size = s
  | None => (price, size) ∈ current
  end.

(** ** The listener of the [useOrderBookAuto] hook *)

Module AutoHook.

Record State : Type := mkState {
  rawOrderBook : OrderBook;
  isLoading : bool;
  paused : bool;
  currentPrice : option number
}.

(** The state the hook is created with, and is reset to on a symbol
    change. *)
Definition initialState : State :=
  {| rawOrderBook := emptyBook; isLoading := true; paused := false;
     currentPrice := None |}.

(** [sourceInfo.depth] inside a template literal. *)
Definition depthString (depth : option nat) : string :=
  match depth with
  | Some n => Number_toString n
  | None => "undefined"
  end.

Section Listener.
Variable parseFloat : string → number.

(** [applySnapshot]: the new book, the price of its first bid if there is
    one, and the loading flag cleared. *)
Definition applySnapshot (clk : Clock) (data : Data) (st : State) : State :=
  let updateId := or_num (data_u data) 0 in
  let newBook :=
    {| bids := or_empty (data_b data);
       asks := or_empty (data_a data);
       timestamp := Some (or_num (data_ts data) (now_ts clk));
       updateId := Some updateId;
       lastUpdate := Some (now_upd clk) |} in
  {| rawOrderBook := newBook;
     isLoading := false;
     paused := paused st;
     currentPrice :=
       match bids newBook with
       | e :: _ => Some (parseFloat e.1)
       | [] => currentPrice st
       end |}.

(** The listener the hook registers for [symbol] and [sourceInfo]. *)
Definition handleMessage (symbol : string) (sourceInfo : Auto.SourceInfo)
    (clk : Clock) (st : State) (message : Message) : State :=
  if paused st then st
  else
    match msg_topic message with
    | None => st
    | Some topic =>
        if bool_decide (topic = "")
           || negb (includes symbol topic)
           || negb (includes
                      ("orderbook." ++ depthString (Auto.depth sourceInfo) ++ ".")
                      topic)
        then st
        else if bool_decide (msg_type message = Some "snapshot") then
          applySnapshot clk (msg_data message) st
        else if bool_decide (msg_type message = Some "delta") then
          let '(newBook, price) :=
            Auto.applyDelta parseFloat sourceInfo clk (msg_data message)
              (rawOrderBook st) in
          {| rawOrderBook := newBook;
             isLoading := isLoading st;
             paused := paused st;
             currentPrice :=
               match price with
               | Some x => Some x
               | None => currentPrice st
               end |}
        else st
    end.

Definition handleAll (symbol : string) (sourceInfo : Auto.SourceInfo)
    (msgs : list (Clock * Message)) (st : State) : State :=
  fold_left (λ st cm, handleMessage symbol sourceInfo cm.1 st cm.2) msgs st.
End Listener.

End AutoHook.



(** A short feed for one symbol at depth 200. *)
Definition sample_feed : list (Clock * Message) :=
  [(clock0, dataMessage "orderbook.200.BTCUSDT" "snapshot" scenario_snapshot);
   (clock1, dataMessage "orderbook.200.BTCUSDT" "delta" mixed_delta)].

(** A delta that carries the restart mark and a new best bid. *)
Definition restart_with_bid : Data :=
  {| data_b := Some [("90", "1")]; data_a := Some [("91", "1")];
     data_u := Some 1%Z; data_ts := Some 1700000000030%Z |}.

(** The auto hook showing [two_level_book]. *)
Definition auto_showing : AutoHook.State :=
  {| AutoHook.rawOrderBook := two_level_book; AutoHook.isLoading := false;
     AutoHook.paused := false;
     AutoHook.currentPrice := Some (hostParseFloat "100") |}.

(** ** Source selection ([autoGrouping]) *)

(** [x < y] on numbers; false when either is NaN. *)
Definition js_lt (x y : number) : bool :=
  match x, y with
  | NaN, _ | _, NaN => false
  | _, NegInf => false
  | NegInf, _ => true
  | PosInf, _ => false
  | Fin _, PosInf => true
  | Fin p, Fin q => negb (Qle_bool q p)
  end.

Module AutoGrouping.

Definition SOURCE_DEPTHS (source : string) : option nat :=
  if bool_decide (source = "L50") then Some 50%nat
  else if bool_decide (source = "L200") then Some 200%nat
  else if bool_decide (source = "L1000") then Some 1000%nat
  else None.

Definition SOURCE_LATENCIES (source : string) : option nat :=
  if bool_decide (source = "L50") then Some 20%nat
  else if bool_decide (source = "L200") then Some 100%nat
  else if bool_decide (source = "L1000") then Some 300%nat
  else None.

(** The double that the literal [0.01] denotes. *)
Definition lit_0_01 : Q := 5764607523034235 # 576460752303423488.

Record Selection : Type := mkSelection {
  source : string;
  depth : option nat;
  latency : option nat;
  estimatedLevels : nat;
  warning : option string
}.

(** [selectSourceAutomatic(tickSize, minLevels)] on numbers. *)
Definition selectSourceAutomatic (tickSize minLevels : number) : Selection :=
  let '(source, depth, rawLevels) :=
    if js_lt tickSize (Fin lit_0_01) then
      ("L200", SOURCE_DEPTHS "L200", 100%nat)
    else if js_lt tickSize (Fin (1 # 2)) then
      ("L200", SOURCE_DEPTHS "L200", 100%nat)
    else if js_lt tickSize (Fin 5) then
      ("L200", SOURCE_DEPTHS "L200", 100%nat)
    else if js_lt tickSize (Fin 50) then
      ("L1000", SOURCE_DEPTHS "L1000", 200%nat)
    else
      ("L1000", SOURCE_DEPTHS "L1000", 200%nat) in
  {| source := source;
     depth := depth;
     latency := SOURCE_LATENCIES source;
     estimatedLevels := rawLevels;
     warning :=
       if js_lt (Fin (inject_Z (Z.of_nat rawLevels))) minLevels
       then Some ("Only ~" ++ Number_toString rawLevels ++ " levels expected")%string
       else None |}.

End AutoGrouping.

(** ** The frontend's connection ([WebSocketProvider]) *)

Module WebSocketProvider.

(** What the provider passes to [ws.send]: a subscribe or unsubscribe
    request, or the heartbeat's ping. *)
Inductive Frame : Type :=
  | Request (action : string) (symbols : list string) (depth : nat)
  | PingFrame.

(** The [symbols] argument of [subscribe] and [unsubscribe]: one symbol or
    an array of them. *)
Inductive Symbols : Type :=
  | One (symbol : string)
  | Many (symbols : list string).

(** [Array.isArray(symbols) ? symbols : [symbols]] *)
Definition toArray (symbols : Symbols) : list string :=
  match symbols with
  | One symbol => [symbol]
  | Many symbols => symbols
  end.

(** The refs of the provider.  [wsRef] is the current socket, given by its
    state; [wire] lists what was passed to [send] of the sockets so far,
    oldest first. *)
Record Provider : Type := mkProvider {
  wsRef : option Proxy.ReadyState;
  wire : list Frame;
  pendingSubscribes : list Frame;
  connectAttempt : nat;
  connecting : bool;
  isConnected : bool;
  reconnectTimeout : bool
}.

(** The provider before its mount effect has run. *)
Definition new : Provider :=
  {| wsRef := None; wire := []; pendingSubscribes := []; connectAttempt := 0;
     connecting := false; isConnected := false; reconnectTimeout := false |}.

Definition is_open (p : Provider) : bool :=
  bool_decide (wsRef p = Some Proxy.OPEN).

(** [connect]: nothing while a connection is being made or is open, else a
    new socket. *)
Definition connect (p : Provider) : Provider :=
  if connecting p || is_open p then p
  else
    {| wsRef := Some Proxy.CONNECTING; wire := wire p;
       pendingSubscribes := pendingSubscribes p;
       connectAttempt := connectAttempt p;
       connecting := true; isConnected := isConnected p;
       reconnectTimeout := reconnectTimeout p |}.

(** [ws.onopen] of the current socket, which is open when it runs: the
    queued subscribes are sent in order and the queue is emptied. *)
Definition onopen (p : Provider) : Provider :=
  {| wsRef := Some Proxy.OPEN;
     wire := wire p ++ pendingSubscribes p;
     pendingSubscribes := [];
     connectAttempt := 0;
     connecting := false; isConnected := true;
     reconnectTimeout := reconnectTimeout p |}.

(** [ws.onclose]: the socket is dropped and a reconnection is scheduled. *)
Definition onclose (p : Provider) : Provider :=
  {| wsRef := None; wire := wire p;
     pendingSubscribes := pendingSubscribes p;
     connectAttempt := Nat.min (connectAttempt p + 1) 10;
     connecting := false; isConnected := false;
     reconnectTimeout := true |}.

Definition sendMessage (message : Frame) (p : Provider) : bool * Provider :=
  if is_open p then
    (true,
     {| wsRef := wsRef p; wire := wire p ++ [message];
        pendingSubscribes := pendingSubscribes p;
        connectAttempt := connectAttempt p;
        connecting := connecting p; isConnected := isConnected p;
        reconnectTimeout := reconnectTimeout p |})
  else (false, p).

(** [depth = 50] in the parameter list: the default stands in for a
    missing argument. *)
Definition depthOr50 (depth : option nat) : nat := default 50%nat depth.

Definition subscribe (symbols : Symbols) (depth : option nat) (p : Provider)
    : bool * Provider :=
  let msg := Request "subscribe" (toArray symbols) (depthOr50 depth) in
  let '(sent, p) := sendMessage msg p in
  if negb sent then
    (sent,
     {| wsRef := wsRef p; wire := wire p;
        pendingSubscribes := pendingSubscribes p ++ [msg];
        connectAttempt := connectAttempt p;
        connecting := connecting p; isConnected := isConnected p;
        reconnectTimeout := reconnectTimeout p |})
  else (sent, p).

Definition unsubscribe (symbols : Symbols) (depth : option nat) (p : Provider)
    : bool * Provider :=
  if negb (is_open p) then (false, p)
  else sendMessage (Request "unsubscribe" (toArray symbols) (depthOr50 depth)) p.

(** The callback of the heartbeat interval. *)
Definition heartbeat (p : Provider) : Provider :=
  if is_open p then (sendMessage PingFrame p).2 else p.

End WebSocketProvider.

(** What can happen to the provider: the reconnect timeout fires, the
    socket opens or closes, the heartbeat fires, a hook subscribes or
    unsubscribes. *)
Inductive ProviderEvent : Type :=
  | ConnectTimer
  | SocketOpen
  | SocketClose
  | HeartbeatTick
  | CallSubscribe (symbols : WebSocketProvider.Symbols) (depth : option nat)
  | CallUnsubscribe (symbols : WebSocketProvider.Symbols) (depth : option nat).

Definition provider_step (p : WebSocketProvider.Provider) (e : ProviderEvent)
    : WebSocketProvider.Provider :=
  match e with
  | ConnectTimer => WebSocketProvider.connect p
  | SocketOpen => WebSocketProvider.onopen p
  | SocketClose => WebSocketProvider.onclose p
  | HeartbeatTick => WebSocketProvider.heartbeat p
  | CallSubscribe symbols depth => (WebSocketProvider.subscribe symbols depth p).2
  | CallUnsubscribe symbols depth =>
      (WebSocketProvider.unsubscribe symbols depth p).2
  end.

Definition provider_run (es : list ProviderEvent) (p : WebSocketProvider.Provider)
    : WebSocketProvider.Provider :=
  fold_left provider_step es p.

(** The subscribe requests among [es], as the frames [subscribe] builds. *)
Definition subscribe_frames (es : list ProviderEvent)
    : list WebSocketProvider.Frame :=
  omap (λ e,
          match e with
          | CallSubscribe symbols depth =>
              Some (WebSocketProvider.Request "subscribe"
                      (WebSocketProvider.toArray symbols)
                      (WebSocketProvider.depthOr50 depth))
          | _ => None
          end) es.

Definition is_SocketOpen (e : ProviderEvent) : Prop :=
  match e with SocketOpen => True | _ => False end.

(** [JSON.parse] at the proxy of the [JSON.stringify] of a frame. *)
Definition parse_frame (f : WebSocketProvider.Frame) : Proxy.ClientData :=
  match f with
  | WebSocketProvider.Request action symbols depth =>
      {| Proxy.cd_type := None; Proxy.cd_action := Some action;
         Proxy.cd_symbols := Some symbols; Proxy.cd_depth := Some depth |}
  | WebSocketProvider.PingFrame =>
      {| Proxy.cd_type := Some "ping"; Proxy.cd_action := None;
         Proxy.cd_symbols := None; Proxy.cd_depth := None |}
  end.

(** A hook subscribes and unmounts while the connection is down. *)
Definition offline_calls : list ProviderEvent :=
  [CallSubscribe (WebSocketProvider.One "BTCUSDT") (Some 200%nat);
   CallUnsubscribe (WebSocketProvider.One "BTCUSDT") (Some 200%nat);
   ConnectTimer].

(** ** The user store ([users.js]) *)

Module Users.
Section Users.
(** The values of preference fields. *)
Variable Value : Type.

(** A preferences object: its own properties by name. *)
Definition Preferences : Type := gmap string Value.

(** An entry of the [users] array; [enabled] is false for an entry whose
    field is [false], and true otherwise. *)
Record User : Type := mkUser {
  username : string;
  password : string;
  enabled : bool;
  preferences : Preferences
}.

(** What [validateCredentials] returns: the user without the password. *)
Record UserWithoutPassword : Type := mkUserWithoutPassword {
  pub_username : string;
  pub_enabled : bool;
  pub_preferences : Preferences
}.

(** [users.find(u => u.username === username)] *)
Fixpoint findUser (name : string) (users : list User) : option User :=
  match users with
  | [] => None
  | u :: users' =>
      if bool_decide (username u = name) then Some u else findUser name users'
  end.

Definition validateCredentials (name pass : string) (users : list User)
    : option UserWithoutPassword :=
  match findUser name users with
  | None => None
  | Some user =>
      if negb (enabled user) then None
      else if bool_decide (password user = pass) then
        Some {| pub_username := username user; pub_enabled := enabled user;
                pub_preferences := preferences user |}
      else None
  end.

Definition getUserPreferences (name : string) (users : list User)
    : option Preferences :=
  preferences <$> findUser name users.

(** [{ ...old, ...new }]: the properties of both, those of [new] first in
    rank. *)
Definition spread (old new : Preferences) : Preferences := new ∪ old.

(** The assignment [user.preferences = ...] on the object [findUser]
    returns, which is the first of the array with that name. *)
Fixpoint assignPreferences (name : string) (prefs : Preferences)
    (users : list User) : list User :=
  match users with
  | [] => []
  | u :: users' =>
      if bool_decide (username u = name) then
        {| username := username u; password := password u;
           enabled := enabled u; preferences := prefs |} :: users'
      else u :: assignPreferences name prefs users'
  end.

(** [updateUserPreferences]: the result and the store afterwards. *)
Definition updateUserPreferences (name : string) (prefs : Preferences)
    (users : list User) : bool * list User :=
  match findUser name users with
  | None => (false, users)
  | Some user =>
      (true, assignPreferences name (spread (preferences user) prefs) users)
  end.
End Users.
End Users.

(** ** Further vocabulary: what the book's shape needs of a run *)

Section RunVocabulary.
Variable parseFloat : string → number.

(** The listener in state [st] takes [message] as a whole book: it lets it
    through, and it is a snapshot, or a delta whose update id, its own or
    else the book's, is 1. *)
Definition taken_whole (symbol : string) (depth : nat) (st : HookState)
    (message : Message) : Prop :=
  paused st = false ∧ addressed symbol depth message ∧
  (msg_type message = Some "snapshot"
   ∨ (msg_type message = Some "delta"
      ∧ is_one (or_else (data_u (msg_data message)) (updateId (orderBook st)))
        = true)).

(** The listener in state [st] patches [message] into the book: it lets it
    through, and it is a delta whose update id, its own or else the book's,
    is not 1. *)
Definition patched_in (symbol : string) (depth : nat) (st : HookState)
    (message : Message) : Prop :=
  paused st = false ∧ addressed symbol depth message ∧
  msg_type message = Some "delta" ∧
  is_one (or_else (data_u (msg_data message)) (updateId (orderBook st))) = false.

(** The entries that set a level have prices that are numbers. *)
Definition setting_numeric (entries : list level) : Prop :=
  Forall (λ e, nonzero_size parseFloat e → numeric_price parseFloat e) entries.

(** What the shape of the book needs of [message] when it arrives in state
    [st]: lists already in shape if it is taken as a whole book, numeric
    prices on the entries that set a level if it is patched in, and nothing
    if the listener drops it. *)
Definition message_fits (symbol : string) (depth : nat) (st : HookState)
    (message : Message) : Prop :=
  let d := msg_data message in
  (taken_whole symbol depth st message →
   side_ok parseFloat (descending parseFloat) depth (default [] (data_b d)) ∧
   side_ok parseFloat (ascending parseFloat) depth (default [] (data_a d))) ∧
  (patched_in symbol depth st message →
   setting_numeric (default [] (data_b d)) ∧
   setting_numeric (default [] (data_a d))).

(** The same along a run, each message judged in the state it meets. *)
Fixpoint run_fits (symbol : string) (depth : nat)
    (msgs : list (Clock * Message)) (st : HookState) : Prop :=
  match msgs with
  | [] => True
  | (clk, m) :: msgs' =>
      message_fits symbol depth st m ∧
      run_fits symbol depth msgs' (handleMessage parseFloat symbol depth clk st m)
  end.




(** What a replay of [entries] leaves on a side cut to [depth]: a level at
    a price the entries name is one of the entries, and every price they
    name has a level with the size of its last entry unless the side is
    full. *)
Definition replayed (depth : nat) (entries side : list level) : Prop :=
  (∀ price size,
     (price, size) ∈ side → price ∈ entries.*1 → (price, size) ∈ entries)
  ∧ (∀ price size,
       last_size entries price = Some size →
       (price, size) ∈ side ∨ length side = depth).

(** A named price without a level was trimmed for a better one: every
    level of the side is at least as good, by [better]. *)
Definition trimmed_for_better (better : level → level → Prop)
    (entries side : list level) : Prop :=
  ∀ price size kept,
    last_size entries price = Some size → (price, size) ∉ side →
    kept ∈ side → better kept (price, size).
End RunVocabulary.

(** A run with a snapshot for another book, which the listener drops, and
    a delta without update id, which is patched in. *)
Definition delta_without_id : Data :=
  {| data_b := Some [("100", "0")]; data_a := None;
     data_u := None; data_ts := None |}.

Definition mixed_run : list (Clock * Message) :=
  [(clock0, dataMessage sample_topic "snapshot" scenario_snapshot);
   (clock0, dataMessage "orderbook.50.ETHUSDT" "snapshot" snapshot_with_zero);
   (clock1, dataMessage sample_topic "delta" delta_without_id)].

(** A book with one bid, a delta for a lower price, a delta that names a
    price twice. *)
Definition one_level_book : OrderBook :=
  {| bids := [("100", "5")]; asks := [];
     timestamp := Some 1700000000000%Z; updateId := Some 10%Z;
     lastUpdate := Some 1700000000001%Z |}.

Definition lower_bid_delta : Data :=
  {| data_b := Some [("99", "2")]; data_a := None;
     data_u := Some 11%Z; data_ts := None |}.

Definition twice_named_delta : Data :=
  {| data_b := Some [("99", "2"); ("99", "3")]; data_a := None;
     data_u := Some 11%Z; data_ts := None |}.
(** * Properties *)

(** ** Numbers *)

Lemma gt_zero_Fin_sub p q :
  gt_zero (js_sub (Fin p) (Fin q)) = false ↔ (p <= q)%Q.
Proof.
  simpl. rewrite negb_false_iff, Qle_bool_iff.
  destruct p as [pn pd], q as [qn qd]. unfold Qle. simpl. lia.
Qed.

Lemma num_le_trans x y z :
  is_NaN y = false → num_le x y → num_le y z → num_le x z.
Proof.
  unfold num_le. intros Hy Hxy Hyz.
  destruct x as [| |p|], y as [| |q|], z as [| |r|];
    try discriminate; try reflexivity.
  apply gt_zero_Fin_sub. apply gt_zero_Fin_sub in Hxy, Hyz.
  eapply Qle_trans; eassumption.
Qed.

Lemma num_le_total x y :
  gt_zero (js_sub x y) = true → num_le y x.
Proof.
  unfold num_le. intros H.
  destruct x as [| |p|], y as [| |q|]; try discriminate; try reflexivity.
  apply gt_zero_Fin_sub.
  destruct (Qlt_le_dec q p) as [Hlt|Hle]; [by apply Qlt_le_weak|].
  apply gt_zero_Fin_sub in Hle. congruence.
Qed.

Lemma num_lt_le x y : num_lt x y → num_le x y.
Proof. apply num_le_total. Qed.

(** ** [sort] *)

Section SortFacts.
Context {A : Type} (comparefn : A → A → number).

Lemma sort_insert_Permutation x l : sort_insert comparefn x l ≡ₚ x :: l.
Proof.
  induction l as [|y l IH]; simpl; [done|].
  destruct (gt_zero (comparefn x y)); [|done].
  rewrite IH. apply Permutation_swap.
Qed.

Lemma sort_Permutation l : sort comparefn l ≡ₚ l.
Proof.
  induction l as [|x l IH]; simpl; [done|].
  by rewrite sort_insert_Permutation, IH.
Qed.

Lemma sort_insert_HdRel x l :
  HdRel (before comparefn) x l → sort_insert comparefn x l = x :: l.
Proof.
  destruct l as [|y l]; simpl; [done|].
  intros H. apply HdRel_inv in H. unfold before in H. by rewrite H.
Qed.

(** A list that is already in order is left as it is. *)
Lemma sort_Sorted_id l : Sorted (before comparefn) l → sort comparefn l = l.
Proof.
  induction 1 as [|x l _ IH Hhd]; simpl; [done|].
  rewrite IH. by apply sort_insert_HdRel.
Qed.

(** An ordered front that may precede everything behind it stays put. *)
Lemma sort_app_front l1 l2 :
  Sorted (before comparefn) l1 →
  (∀ x y, x ∈ l1 → y ∈ l2 → before comparefn x y) →
  sort comparefn (l1 ++ l2) = l1 ++ sort comparefn l2.
Proof.
  induction 1 as [|x l1 Hs IH Hhd]; intros Hle; simpl; [done|].
  rewrite IH by (intros ????; apply Hle; [by right|done]).
  apply sort_insert_HdRel.
  destruct l1 as [|y l1]; simpl.
  - destruct (sort comparefn l2) as [|y l2'] eqn:E; constructor.
    apply Hle; [by left|].
    rewrite <- (sort_Permutation l2), E. by left.
  - constructor. by apply HdRel_inv in Hhd.
Qed.

Section Consistent.
(** On the elements satisfying [valid] the comparator is consistent. *)
Variable valid : A → Prop.
Hypothesis before_trans : ∀ x y z,
  valid y → before comparefn x y → before comparefn y z → before comparefn x z.
Hypothesis before_total : ∀ x y,
  gt_zero (comparefn x y) = true → before comparefn y x.

Lemma sort_insert_StronglySorted x l :
  Forall valid l →
  StronglySorted (before comparefn) l →
  StronglySorted (before comparefn) (sort_insert comparefn x l).
Proof.
  intros Hv Hs. induction Hs as [|y l Hs IH Hall]; simpl.
  - repeat constructor.
  - apply Forall_cons in Hv as [Hy Hv].
    destruct (gt_zero (comparefn x y)) eqn:E.
    + constructor; [by apply IH|].
      rewrite sort_insert_Permutation. constructor; [|done].
      by apply before_total.
    + constructor; [by constructor|].
      constructor; [done|].
      eapply Forall_impl; [exact Hall|]. intros z Hz.
      by apply (before_trans x y z).
Qed.

Lemma sort_StronglySorted l :
  Forall valid l → StronglySorted (before comparefn) (sort comparefn l).
Proof.
  induction 1 as [|x l Hx Hl IH]; simpl; [constructor|].
  apply sort_insert_StronglySorted; [|done].
  by rewrite sort_Permutation.
Qed.
End Consistent.
End SortFacts.

(** ** The price-keyed [Map] *)

Lemma Map_set_notin k v m : k ∉ m.*1 → Map_set k v m = m ++ [(k, v)].
Proof.
  induction m as [|[k0 v0] m IH]; simpl; [done|].
  rewrite not_elem_of_cons. intros [Hne Hm].
  rewrite bool_decide_false by congruence. by rewrite IH.
Qed.

Lemma Map_set_keys_in k v m : k ∈ m.*1 → (Map_set k v m).*1 = m.*1.
Proof.
  induction m as [|[k0 v0] m IH]; [by intros ?%elem_of_nil|].
  cbn [Map_set]. rewrite fmap_cons. intros Hk.
  case_bool_decide as E; rewrite fmap_cons; [by subst|].
  rewrite IH; [done|]. apply elem_of_cons in Hk as [?|?]; [done|done].
Qed.

Lemma Map_set_NoDup k v m : NoDup m.*1 → NoDup (Map_set k v m).*1.
Proof.
  intros Hm. destruct (decide (k ∈ m.*1)) as [Hk|Hk].
  - by rewrite Map_set_keys_in.
  - rewrite Map_set_notin, fmap_app by done. apply NoDup_app.
    split_and!; [done| |apply NoDup_singleton].
    intros x Hx ->%list_elem_of_singleton. done.
Qed.

Lemma Map_set_key_new k v m : k ∈ (Map_set k v m).*1.
Proof.
  induction m as [|[k0 v0] m IH]; simpl; [by left|].
  case_bool_decide; simpl; [by left|by right].
Qed.

Lemma Map_set_key_old k v k' m : k' ∈ m.*1 → k' ∈ (Map_set k v m).*1.
Proof.
  intros Hk'. destruct (decide (k ∈ m.*1)) as [Hk|Hk].
  - by rewrite Map_set_keys_in.
  - rewrite Map_set_notin, fmap_app by done. apply elem_of_app. by left.
Qed.

Lemma Map_set_elem_of e k v m : e ∈ Map_set k v m → e = (k, v) ∨ e ∈ m.
Proof.
  induction m as [|[k0 v0] m IH]; simpl.
  - intros ->%list_elem_of_singleton. by left.
  - case_bool_decide; rewrite !elem_of_cons; intuition.
Qed.

Lemma Map_set_Forall (P : level → Prop) k v m :
  P (k, v) → Forall P m → Forall P (Map_set k v m).
Proof.
  intros Hkv Hm. apply Forall_forall. intros e He.
  apply Map_set_elem_of in He as [->|He]; [done|].
  by eapply Forall_forall in Hm.
Qed.

Lemma Map_delete_NoDup k m : NoDup m.*1 → NoDup (Map_delete k m).*1.
Proof.
  intros Hm. eapply sublist_NoDup; [exact Hm|].
  apply fmap_sublist, sublist_filter.
Qed.

Lemma Map_delete_Forall (P : level → Prop) k m :
  Forall P m → Forall P (Map_delete k m).
Proof.
  intros Hm. eapply Forall_forall. intros e He.
  apply list_elem_of_filter in He as [_ He]. by eapply Forall_forall in Hm.
Qed.

Lemma Map_setAll_cons k v l m :
  Map_setAll ((k, v) :: l) m = Map_setAll l (Map_set k v m).
Proof. reflexivity. Qed.

Lemma Map_setAll_NoDup l m : NoDup m.*1 → NoDup (Map_setAll l m).*1.
Proof.
  revert m. induction l as [|[k v] l IH]; intros m Hm; [done|].
  rewrite Map_setAll_cons.
  by apply IH, Map_set_NoDup.
Qed.

Lemma Map_setAll_Forall (P : level → Prop) l m :
  Forall P l → Forall P m → Forall P (Map_setAll l m).
Proof.
  revert m. induction l as [|[k v] l IH]; intros m Hl Hm; [done|].
  rewrite Map_setAll_cons.
  apply Forall_cons in Hl as [Hkv Hl]. by apply IH, Map_set_Forall.
Qed.

Lemma Map_new_NoDup l : NoDup (Map_new l).*1.
Proof. apply (Map_setAll_NoDup l []). constructor. Qed.

Lemma Map_new_Forall (P : level → Prop) l : Forall P l → Forall P (Map_new l).
Proof. intros Hl. by apply (Map_setAll_Forall P l []). Qed.

(** Entries under new, pairwise distinct keys are appended in order. *)
Lemma Map_setAll_fresh l m : NoDup (m ++ l).*1 → Map_setAll l m = m ++ l.
Proof.
  revert m. induction l as [|[k v] l IH]; intros m Hnd.
  - by rewrite app_nil_r.
  - rewrite Map_setAll_cons. assert (Hk : k ∉ m.*1).
    { rewrite fmap_app in Hnd. apply NoDup_app in Hnd as (_ & Hd & _).
      intros Hk. apply (Hd k Hk). simpl. by left. }
    rewrite Map_set_notin by done. rewrite IH; rewrite <- app_assoc; done.
Qed.

(** A list with distinct keys is the [Map] built from it. *)
Lemma Map_new_id l : NoDup l.*1 → Map_new l = l.
Proof. intros Hl. by apply (Map_setAll_fresh l []). Qed.

Lemma Map_setAll_key_old l m k : k ∈ m.*1 → k ∈ (Map_setAll l m).*1.
Proof.
  revert m. induction l as [|[k0 v0] l IH]; intros m Hk; [done|].
  rewrite Map_setAll_cons.
  by apply IH, Map_set_key_old.
Qed.

Lemma Map_setAll_key_new l m k : k ∈ l.*1 → k ∈ (Map_setAll l m).*1.
Proof.
  revert m. induction l as [|[k0 v0] l IH]; intros m.
  - by intros ?%elem_of_nil.
  - rewrite Map_setAll_cons, fmap_cons.
    intros [->|Hk]%elem_of_cons; [|by apply IH].
    apply Map_setAll_key_old, Map_set_key_new.
Qed.

(** *** What [set]ting a list of entries does to a map *)

Lemma last_size_key l k v : last_size l k = Some v → k ∈ l.*1.
Proof.
  induction l as [|[k0 v0] l IH]; [done|].
  cbn [last_size]. rewrite fmap_cons.
  destruct (last_size l k) as [s|].
  - intros Hs. right. by apply IH.
  - case_bool_decide; [intros _; subst; by left|done].
Qed.

Lemma last_size_cons_ne k0 v0 l k :
  k0 ≠ k → last_size ((k0, v0) :: l) k = last_size l k.
Proof.
  intros Hne. simpl. destruct (last_size l k); [done|].
  by rewrite bool_decide_false.
Qed.

Lemma last_size_cons_Some k0 v0 l k v :
  last_size l k = Some v → last_size ((k0, v0) :: l) k = Some v.
Proof. intros H. simpl. by rewrite H. Qed.

Lemma overwrite_nil e : overwrite [] e = e.
Proof. by destruct e. Qed.

Lemma overwrite_cons_ne k0 v0 l e :
  k0 ≠ e.1 → overwrite ((k0, v0) :: l) e = overwrite l e.
Proof. intros Hne. unfold overwrite. by rewrite last_size_cons_ne. Qed.

Lemma overwrite_cons_fresh k v l (m : list level) :
  k ∉ m.*1 → overwrite ((k, v) :: l) <$> m = overwrite l <$> m.
Proof.
  intros Hk. apply Forall_fmap_ext_1, Forall_forall. intros e He.
  apply overwrite_cons_ne. intros ->. apply Hk.
  apply list_elem_of_fmap. by exists e.
Qed.

Lemma overwrite_set k v l m :
  NoDup m.*1 → k ∈ m.*1 →
  overwrite l <$> Map_set k v m = overwrite ((k, v) :: l) <$> m.
Proof.
  induction m as [|[k0 v0] m IH]; [by intros _ ?%elem_of_nil|].
  rewrite fmap_cons. intros [Hk0 Hm]%NoDup_cons Hk.
  cbn [Map_set]. case_bool_decide as E.
  - subst k0. rewrite !fmap_cons, overwrite_cons_fresh by done.
    f_equal. unfold overwrite. simpl.
    destruct (last_size l k); [done|]. by rewrite bool_decide_true.
  - rewrite !fmap_cons, overwrite_cons_ne by done.
    rewrite IH; [done|done|].
    apply elem_of_cons in Hk as [?|?]; [simpl in *; congruence|done].
Qed.

(** Existing keys keep their place and take the last size given for them;
    what is appended carries, for its price, the last size given. *)
Lemma Map_setAll_decompose l m :
  NoDup m.*1 →
  ∃ N, Map_setAll l m = (overwrite l <$> m) ++ N
       ∧ Forall (λ e, last_size l e.1 = Some e.2) N.
Proof.
  revert m. induction l as [|[k v] l IH]; intros m Hm.
  - exists []. split; [|constructor].
    rewrite app_nil_r. symmetry. rewrite <- (list_fmap_id m) at 2.
    apply Forall_fmap_ext_1, Forall_forall. intros ??. apply overwrite_nil.
  - rewrite Map_setAll_cons.
    destruct (IH (Map_set k v m)) as (N & HN & HlN); [by apply Map_set_NoDup|].
    destruct (decide (k ∈ m.*1)) as [Hk|Hk].
    + exists N. split.
      * by rewrite HN, overwrite_set.
      * eapply Forall_impl; [exact HlN|]. intros e He.
        by apply last_size_cons_Some.
    + exists (overwrite l (k, v) :: N). split.
      * rewrite HN, Map_set_notin, fmap_app, overwrite_cons_fresh by done.
        by rewrite <- app_assoc.
      * constructor.
        -- unfold overwrite. simpl. destruct (last_size l k); [done|].
           by rewrite bool_decide_true.
        -- eapply Forall_impl; [exact HlN|]. intros e He.
           by apply last_size_cons_Some.
Qed.

(** Every level of the result carries the last size given for its price, if
    one was given. *)
Lemma Map_setAll_agree l m :
  NoDup m.*1 →
  Forall (λ e, ∀ s, last_size l e.1 = Some s → e.2 = s) (Map_setAll l m).
Proof.
  intros Hm. destruct (Map_setAll_decompose l m Hm) as (N & -> & HN).
  apply Forall_app. split.
  - apply Forall_fmap, Forall_forall. intros e _ s Hs.
    unfold overwrite in *. simpl in *. by rewrite Hs.
  - eapply Forall_impl; [exact HN|]. intros e He s Hs. congruence.
Qed.

Lemma overwrite_agree l (m : list level) :
  Forall (λ e, ∀ s, last_size l e.1 = Some s → e.2 = s) m →
  overwrite l <$> m = m.
Proof.
  intros Hm. rewrite <- (list_fmap_id m) at 2.
  apply Forall_fmap_ext_1. eapply Forall_impl; [exact Hm|].
  intros [k v] Hkv. simpl in Hkv.
  unfold overwrite. simpl. destruct (last_size l k) as [s|]; simpl; [|done].
  by rewrite (Hkv s).
Qed.

Lemma last_size_elem_of l k s : last_size l k = Some s → (k, s) ∈ l.
Proof.
  induction l as [|[k0 v0] l IH]; [done|]. cbn [last_size].
  destruct (last_size l k) as [s'|].
  - intros Hs. right. by apply IH.
  - case_bool_decide; [|done]. intros [= <-]. subst. by left.
Qed.

Lemma last_size_is_Some l k : k ∈ l.*1 → is_Some (last_size l k).
Proof.
  induction l as [|[k0 v0] l IH]; [by intros ?%elem_of_nil|].
  rewrite fmap_cons. cbn [last_size]. intros Hk.
  destruct (last_size l k) as [s'|] eqn:E; [by eexists|].
  apply elem_of_cons in Hk as [->|Hk].
  - rewrite bool_decide_true by done. by eexists.
  - destruct (IH Hk) as [? [=]].
Qed.

(** ** The two branches of [applyDelta] *)

Section Branches.
Variable parseFloat : string → number.

Lemma applyDelta_sentinel depth clk d B :
  is_one (or_else (data_u d) (updateId B)) = true →
  applyDelta parseFloat depth clk d B =
    {| bids := or_empty (data_b d);
       asks := or_empty (data_a d);
       timestamp := Some (or_num (data_ts d) (now_ts clk));
       updateId := Some 1%Z;
       lastUpdate := Some (now_upd clk) |}.
Proof.
  intros H. unfold applyDelta. rewrite H. f_equal.
  destruct (or_else (data_u d) (updateId B)) as [z|]; [|done].
  simpl in H. apply Z.eqb_eq in H. by subst.
Qed.

Lemma applyDelta_patch depth clk d B :
  is_one (or_else (data_u d) (updateId B)) = false →
  applyDelta parseFloat depth clk d B =
    {| bids := patchSide parseFloat (compareBids parseFloat) depth
                 (or_empty (data_b d)) (bids B);
       asks := patchSide parseFloat (compareAsks parseFloat) depth
                 (or_empty (data_a d)) (asks B);
       timestamp := Some (or_num (data_ts d) (now_ts clk));
       updateId := or_else (data_u d) (updateId B);
       lastUpdate := Some (now_upd clk) |}.
Proof.
  intros H. unfold applyDelta. rewrite H.
  by destruct (data_b d) as [[|??]|], (data_a d) as [[|??]|].
Qed.

Lemma applyEntries_nonzero l m :
  Forall (nonzero_size parseFloat) l →
  fold_left (applyEntry parseFloat) l m = Map_setAll l m.
Proof.
  intros Hl. revert m. induction Hl as [|[k v] l Hkv Hl IH]; intros m; [done|].
  rewrite Map_setAll_cons. cbn [fold_left]. rewrite IH. f_equal.
  unfold applyEntry. unfold nonzero_size in Hkv. simpl in Hkv. by rewrite Hkv.
Qed.

Lemma applyEntries_NoDup l m :
  NoDup m.*1 → NoDup (fold_left (applyEntry parseFloat) l m).*1.
Proof.
  revert m. induction l as [|[k v] l IH]; intros m Hm; [done|].
  cbn [fold_left]. apply IH. unfold applyEntry.
  destruct (strict_eq_zero _); [by apply Map_delete_NoDup|by apply Map_set_NoDup].
Qed.

(** Whatever holds of the old levels and of the entries that are [set]
    holds of the patched map. *)
Lemma applyEntries_Forall (P : level → Prop) l m :
  Forall (λ e, nonzero_size parseFloat e → P e) l →
  Forall P m → Forall P (fold_left (applyEntry parseFloat) l m).
Proof.
  intros Hl. revert m. induction Hl as [|[k v] l Hkv Hl IH]; intros m Hm; [done|].
  cbn [fold_left]. apply IH. unfold applyEntry.
  destruct (strict_eq_zero _) eqn:E;
    [by apply Map_delete_Forall|apply Map_set_Forall; [by apply Hkv|done]].
Qed.

Lemma compareBids_trans x y z :
  numeric_price parseFloat y →
  before (compareBids parseFloat) x y → before (compareBids parseFloat) y z →
  before (compareBids parseFloat) x z.
Proof. intros Hy Hxy Hyz. by apply (num_le_trans _ (parseFloat y.1)). Qed.

Lemma compareBids_total x y :
  gt_zero (compareBids parseFloat x y) = true → before (compareBids parseFloat) y x.
Proof. apply num_le_total. Qed.

Lemma compareAsks_trans x y z :
  numeric_price parseFloat y →
  before (compareAsks parseFloat) x y → before (compareAsks parseFloat) y z →
  before (compareAsks parseFloat) x z.
Proof. intros Hy Hxy Hyz. by apply (num_le_trans _ (parseFloat y.1)). Qed.

Lemma compareAsks_total x y :
  gt_zero (compareAsks parseFloat x y) = true → before (compareAsks parseFloat) y x.
Proof. apply num_le_total. Qed.
End Branches.

(** ** One side under a patch *)

Section PatchSide.
Variable parseFloat : string → number.
Variable comparefn : level → level → number.
Hypothesis comparefn_trans : ∀ x y z,
  numeric_price parseFloat y →
  before comparefn x y → before comparefn y z → before comparefn x z.
Hypothesis comparefn_total : ∀ x y,
  gt_zero (comparefn x y) = true → before comparefn y x.

Lemma patchSide_Forall (P : level → Prop) depth entries current :
  Forall (λ e, nonzero_size parseFloat e → P e) entries →
  Forall P current → Forall P (patchSide parseFloat comparefn depth entries current).
Proof.
  intros He Hc. destruct entries as [|e entries]; [done|].
  unfold patchSide, slice0. apply Forall_take.
  rewrite sort_Permutation.
  apply applyEntries_Forall; [done|]. by apply Map_new_Forall.
Qed.

Lemma patchSide_nonzero depth entries current :
  Forall (nonzero_size parseFloat) current →
  Forall (nonzero_size parseFloat) (patchSide parseFloat comparefn depth entries current).
Proof. apply patchSide_Forall, Forall_forall. auto. Qed.

Lemma patchSide_numeric depth entries current :
  Forall (numeric_price parseFloat) entries →
  Forall (numeric_price parseFloat) current →
  Forall (numeric_price parseFloat) (patchSide parseFloat comparefn depth entries current).
Proof.
  intros He. apply patchSide_Forall.
  eapply Forall_impl; [exact He|]. auto.
Qed.

Lemma patchSide_length depth entries current :
  (length current ≤ depth)%nat →
  (length (patchSide parseFloat comparefn depth entries current) ≤ depth)%nat.
Proof.
  intros Hc. destruct entries as [|e entries]; [done|].
  unfold patchSide, slice0. rewrite length_take. lia.
Qed.

Lemma patchSide_distinct_keys depth entries current :
  distinct_keys current → distinct_keys (patchSide parseFloat comparefn depth entries current).
Proof.
  unfold distinct_keys. intros Hc. destruct entries as [|e entries]; [done|].
  unfold patchSide, slice0. rewrite fmap_take.
  eapply sublist_NoDup; [|apply sublist_take].
  rewrite sort_Permutation. apply applyEntries_NoDup, Map_new_NoDup.
Qed.

Lemma patchSide_sorted depth entries current :
  Forall (numeric_price parseFloat) entries →
  Forall (numeric_price parseFloat) current →
  StronglySorted (before comparefn) current →
  StronglySorted (before comparefn) (patchSide parseFloat comparefn depth entries current).
Proof.
  intros He Hc Hs. destruct entries as [|e entries]; [done|].
  unfold patchSide, slice0.
  set (M := fold_left _ _ _).
  assert (HM : Forall (numeric_price parseFloat) M).
  { apply applyEntries_Forall; [|by apply Map_new_Forall].
    eapply Forall_impl; [exact He|]. auto. }
  pose proof (sort_StronglySorted comparefn _ comparefn_trans comparefn_total M HM)
    as HS.
  rewrite <- (take_drop depth (sort comparefn M)) in HS.
  by apply StronglySorted_app_1_l in HS.
Qed.

(** Replaying the same non-zero entries changes nothing: the kept levels
    are an ordered front of the re-built map, and what is appended behind
    them was trimmed before and is trimmed again. *)
Lemma patchSide_twice depth entries current :
  Forall (nonzero_size parseFloat) entries →
  Forall (numeric_price parseFloat) entries →
  Forall (numeric_price parseFloat) current →
  patchSide parseFloat comparefn depth entries
    (patchSide parseFloat comparefn depth entries current)
  = patchSide parseFloat comparefn depth entries current.
Proof.
  intros Hnz Hnum Hcur. destruct (decide (entries = [])) as [->|Hne]; [done|].
  assert (Hpatch : ∀ cur, patchSide parseFloat comparefn depth entries cur =
            take depth (sort comparefn (Map_setAll entries (Map_new cur)))).
  { intros cur. unfold patchSide, slice0. rewrite applyEntries_nonzero by done.
    by destruct entries. }
  rewrite !Hpatch.
  set (M1 := Map_setAll entries (Map_new current)).
  set (S1 := sort comparefn M1).
  set (R1 := take depth S1).
  set (T1 := drop depth S1).
  assert (HS1 : S1 = R1 ++ T1) by (symmetry; apply take_drop).
  assert (HM1nd : NoDup M1.*1) by apply Map_setAll_NoDup, Map_new_NoDup.
  assert (HS1p : S1 ≡ₚ M1) by apply sort_Permutation.
  assert (HS1nd : NoDup S1.*1) by by rewrite HS1p.
  assert (HR1nd : NoDup R1.*1).
  { unfold R1. rewrite fmap_take. eapply sublist_NoDup; [exact HS1nd|].
    apply sublist_take. }
  assert (HM1num : Forall (numeric_price parseFloat) M1).
  { apply Map_setAll_Forall; [done|]. by apply Map_new_Forall. }
  assert (HS1s : StronglySorted (before comparefn) S1).
  { by apply (sort_StronglySorted comparefn _ comparefn_trans comparefn_total). }
  assert (HM1ag : Forall (λ e, ∀ s, last_size entries e.1 = Some s → e.2 = s) M1).
  { apply Map_setAll_agree, Map_new_NoDup. }
  assert (HR1sub : ∀ e, e ∈ R1 → e ∈ M1).
  { intros e He. rewrite <- HS1p, HS1. apply elem_of_app. by left. }
  rewrite (Map_new_id R1) by done.
  destruct (Map_setAll_decompose entries R1 HR1nd) as (N & HN & HNl).
  rewrite overwrite_agree in HN.
  2:{ apply Forall_forall. intros e He.
      eapply Forall_forall in HM1ag; [exact HM1ag|]. by apply HR1sub. }
  assert (HNnd : NoDup (R1 ++ N).*1).
  { rewrite <- HN. by apply Map_setAll_NoDup. }
  assert (HNT : ∀ e, e ∈ N → e ∈ T1).
  { intros e He.
    assert (He1 : e ∈ M1).
    { eapply Forall_forall in HNl; [|exact He]. simpl in HNl.
      assert (Hk : e.1 ∈ M1.*1).
      { apply Map_setAll_key_new. by eapply last_size_key. }
      apply list_elem_of_fmap in Hk as (e' & Hk & He').
      assert (e'.2 = e.2) as Hv.
      { eapply Forall_forall in HM1ag; [|exact He'].
        apply HM1ag. by rewrite <- Hk. }
      destruct e, e'; simpl in *; by subst. }
    rewrite <- HS1p, HS1 in He1. apply elem_of_app in He1 as [He1|]; [|done].
    exfalso. rewrite fmap_app in HNnd.
    apply NoDup_app in HNnd as (_ & Hd & _).
    apply (Hd e.1); apply list_elem_of_fmap; by exists e. }
  rewrite HN. rewrite sort_app_front.
  - destruct (decide (length R1 = depth)) as [Hlen|Hlen].
    + by apply take_app_length'.
    + assert (Hlt : (length S1 < depth)%nat).
      { unfold R1 in Hlen. rewrite length_take in Hlen. lia. }
      assert (N = []) as ->.
      { destruct N as [|e N]; [done|].
        assert (e ∈ T1) as He by (apply HNT; by left).
        unfold T1 in He. rewrite drop_ge in He by lia.
        by apply elem_of_nil in He. }
      simpl. rewrite app_nil_r. apply take_ge.
      unfold R1. rewrite length_take. lia.
  - apply StronglySorted_Sorted.
    rewrite HS1 in HS1s. by apply StronglySorted_app_1_l in HS1s.
  - intros x y Hx Hy. rewrite HS1 in HS1s.
    eapply StronglySorted_app_1_elem_of; [exact HS1s|done|by apply HNT].
Qed.

(** A kept level whose price the entries mention carries one of their
    sizes, the last. *)
Lemma patchSide_size depth entries current e :
  Forall (nonzero_size parseFloat) entries →
  e ∈ patchSide parseFloat comparefn depth entries current → e.1 ∈ entries.*1 →
  last_size entries e.1 = Some e.2.
Proof.
  intros Hnz He Hk. destruct (decide (entries = [])) as [->|Hne].
  { by apply elem_of_nil in Hk. }
  assert (He' : e ∈ Map_setAll entries (Map_new current)).
  { unfold patchSide, slice0 in He. rewrite applyEntries_nonzero in He by done.
    destruct entries; [done|].
    apply subseteq_take in He. by rewrite sort_Permutation in He. }
  destruct (last_size_is_Some _ _ Hk) as [s Hs].
  pose proof (Map_setAll_agree entries (Map_new current) (Map_new_NoDup _)) as Hag.
  eapply Forall_forall in Hag; [|exact He']. by rewrite (Hag s Hs).
Qed.
End PatchSide.

(** ** Replaying a delta *)

Lemma or_else_idemp x y : or_else x (or_else x y) = or_else x y.
Proof. destruct x as [v|]; simpl; [|done]. by destruct (v =? 0)%Z. Qed.

(** ** The two hooks *)

(** Claim C9.  Given the same depth, the [applyDelta] of [useOrderBookAuto]
    and the [applyDelta] of [useOrderBook] compute the same bid levels, ask
    levels and update id for every book and delta. *)
Theorem applyDelta_hooks_agree (parseFloat : string → number) (depth : nat)
    (sourceInfo : Auto.SourceInfo) (clk : Clock) (d : Data) (B : OrderBook) :
  Auto.depth sourceInfo = Some depth →
  let B1 := (Auto.applyDelta parseFloat sourceInfo clk d B).1 in
  let B2 := applyDelta parseFloat depth clk d B in
  bids B1 = bids B2 ∧ asks B1 = asks B2 ∧ updateId B1 = updateId B2.
Proof.
  intros Hd B1 B2. unfold B1, B2, Auto.applyDelta, applyDelta.
  rewrite Hd. destruct (is_one _); simpl; [done|].
  by destruct (data_b d) as [[|??]|], (data_a d) as [[|??]|].
Qed.

Lemma applyDelta_hooks_agree_witness :
  Auto.depth (Auto.sourceInfo "L200") = Some 200%nat ∧
  bids (Auto.applyDelta hostParseFloat (Auto.sourceInfo "L200") clock1
          upsert_delta two_level_book).1
    = bids (applyDelta hostParseFloat 200 clock1 upsert_delta two_level_book).
Proof.
  split; [reflexivity|].
  apply (applyDelta_hooks_agree hostParseFloat 200 (Auto.sourceInfo "L200")
           clock1 upsert_delta two_level_book).
  reflexivity.
Defined.

(** ** The listener *)

Section Listener.
Variable parseFloat : string → number.

Lemma handleMessage_snapshot symbol depth clk st m :
  paused st = false → addressed symbol depth m →
  msg_type m = Some "snapshot" →
  orderBook (handleMessage parseFloat symbol depth clk st m)
    = applySnapshot clk (msg_data m).
Proof.
  intros Hp (topic & Ht & Hne & Hs & Hd) Hty. unfold handleMessage.
  rewrite Hp, Ht, Hs, Hd. rewrite bool_decide_false by done.
  simpl. by rewrite bool_decide_true.
Qed.

Lemma handleMessage_delta symbol depth clk st m :
  paused st = false → addressed symbol depth m →
  msg_type m = Some "delta" →
  orderBook (handleMessage parseFloat symbol depth clk st m)
    = applyDelta parseFloat depth clk (msg_data m) (orderBook st).
Proof.
  intros Hp (topic & Ht & Hne & Hs & Hd) Hty. unfold handleMessage.
  rewrite Hp, Ht, Hs, Hd. rewrite bool_decide_false by done.
  simpl. rewrite bool_decide_false by (by rewrite Hty).
  by rewrite bool_decide_true.
Qed.

(** Whatever the message, the book afterwards is the old one, the
    snapshot's, or the old one under the delta. *)
Lemma handleMessage_cases symbol depth clk st m :
  let st' := handleMessage parseFloat symbol depth clk st m in
  paused st' = paused st ∧
  (orderBook st' = orderBook st
   ∨ (msg_type m = Some "snapshot"
      ∧ orderBook st' = applySnapshot clk (msg_data m))
   ∨ orderBook st' = applyDelta parseFloat depth clk (msg_data m) (orderBook st)).
Proof.
  unfold handleMessage. destruct (paused st) eqn:Hp; [by auto|].
  destruct (msg_topic m) as [topic|]; [|by auto].
  destruct (_ || _); [by auto|].
  repeat case_bool_decide; simpl; auto.
Qed.

End Listener.

Lemma emptyBook_ok parseFloat depth : book_ok parseFloat depth emptyBook.
Proof.
  split; (split_and!; simpl; [constructor|lia|constructor|constructor|constructor]).
Qed.

(** ** The book invariant *)

(** Distinctness of the keys of a given list, by evaluation. *)
Ltac concrete_NoDup :=
  unfold distinct_keys;
  match goal with |- ?P => apply (@bool_decide_unpack P _) end;
  vm_compute; exact I.

(** The claim as stated fails in four ways: a snapshot's zero-size level is
    kept; a snapshot longer than [depth] is kept whole; a snapshot's order is
    kept; and a delta naming a held price by another string adds a second
    level at that price. *)
Lemma claimed_invariant_counterexample :
  ¬ claimed_invariant hostParseFloat 50
      (orderBook (handleAll hostParseFloat "BTCUSDT" 50
         [(clock0, dataMessage sample_topic "snapshot" snapshot_with_zero)]
         initialState)) ∧
  ¬ claimed_invariant hostParseFloat 1
      (orderBook (handleAll hostParseFloat "BTCUSDT" 1
         [(clock0, dataMessage "orderbook.1.BTCUSDT" "snapshot" two_level_snapshot)]
         initialState)) ∧
  ¬ claimed_invariant hostParseFloat 50
      (orderBook (handleAll hostParseFloat "BTCUSDT" 50
         [(clock0, dataMessage sample_topic "snapshot" snapshot_unsorted)]
         initialState)) ∧
  ¬ claimed_invariant hostParseFloat 50
      (orderBook (handleAll hostParseFloat "BTCUSDT" 50
         [(clock0, dataMessage sample_topic "snapshot" scenario_snapshot);
          (clock1, dataMessage sample_topic "delta" delta_same_price)]
         initialState)).
Proof.
  split_and!.
  - intros (H & _).
    change (bids _) with [("100", "0"); ("99", "2")] in H.
    apply Forall_cons in H as [Hz _]. discriminate Hz.
  - intros (_ & _ & H & _).
    change (bids _) with [("100", "5"); ("99", "2")] in H. simpl in H. lia.
  - intros (_ & _ & _ & _ & H & _).
    change (bids _) with [("99", "2"); ("100", "5")] in H.
    apply StronglySorted_inv in H as [_ Hall].
    apply Forall_cons in Hall as [Hlt _]. discriminate Hlt.
  - intros (_ & _ & _ & _ & H & _).
    change (bids _) with [("100", "5"); ("100.0", "1")] in H.
    apply StronglySorted_inv in H as [_ Hall].
    apply Forall_cons in Hall as [Hlt _]. discriminate Hlt.
Qed.

(** ** Snapshots *)

(** Claim C2, as the hook does it.  Whatever the prior state, a snapshot
    that gets through the listener replaces bids and asks wholesale with
    exactly the message's bid and ask levels, zero-size levels included, and
    sets the update id and the timestamp to the message's [u] and (non-zero)
    [ts]. *)
Theorem applySnapshot_replaces (parseFloat : string → number) (symbol : string)
    (depth : nat) (clk : Clock) (st : HookState) (m : Message)
    (b a : list level) (u ts : Z) :
  paused st = false → addressed symbol depth m →
  msg_type m = Some "snapshot" →
  msg_data m = {| data_b := Some b; data_a := Some a;
                  data_u := Some u; data_ts := Some ts |} →
  ts ≠ 0%Z →
  let B := orderBook (handleMessage parseFloat symbol depth clk st m) in
  bids B = b ∧ asks B = a ∧ updateId B = Some u ∧ timestamp B = Some ts.
Proof.
  intros Hp Ha Hty Hd Hts B. unfold B.
  rewrite handleMessage_snapshot by done. rewrite Hd.
  unfold applySnapshot. simpl. split_and!; [done|done| |].
  - by destruct (u =? 0)%Z eqn:E; [apply Z.eqb_eq in E; subst|].
  - apply Z.eqb_neq in Hts. by rewrite Hts.
Qed.

Lemma applySnapshot_replaces_witness :
  let m := dataMessage sample_topic "snapshot" snapshot_with_zero in
  paused initialState = false ∧ addressed "BTCUSDT" 50 m ∧
  bids (orderBook (handleMessage hostParseFloat "BTCUSDT" 50 clock0 initialState m))
    = [("100", "0"); ("99", "2")].
Proof.
  intros m.
  assert (Ha : addressed "BTCUSDT" 50 m).
  { exists sample_topic. by split_and!. }
  split_and!; [reflexivity|exact Ha|].
  eapply (applySnapshot_replaces hostParseFloat "BTCUSDT" 50 clock0 initialState m).
  - reflexivity.
  - exact Ha.
  - reflexivity.
  - reflexivity.
  - discriminate.
Defined.

(** The snapshot's zero-size level is in the book afterwards. *)
Lemma applySnapshot_keeps_zero_size :
  let B := orderBook (handleMessage hostParseFloat "BTCUSDT" 50 clock0 initialState
                        (dataMessage sample_topic "snapshot" snapshot_with_zero)) in
  ("100", "0") ∈ bids B ∧ strict_eq_zero (hostParseFloat "0") = true ∧
  ¬ Forall (nonzero_size hostParseFloat) (bids B).
Proof.
  split_and!; [by left|reflexivity|].
  intros H. change (bids _) with [("100", "0"); ("99", "2")] in H.
  apply Forall_cons in H as [Hz _]. discriminate Hz.
Qed.

(** ** A delta before any snapshot *)

(** The first delta changes the uninitialized book. *)
Lemma delta_before_snapshot_not_rejected :
  let st := handleMessage hostParseFloat "BTCUSDT" 50 clock0 initialState
              (dataMessage sample_topic "delta" first_delta) in
  bids (orderBook st) = [("100", "5"); ("99", "2")] ∧
  asks (orderBook st) = [("101", "3")] ∧
  orderBook st ≠ orderBook initialState.
Proof. split_and!; [reflexivity|reflexivity|discriminate]. Qed.

(** ** Removing a level *)


(** ** Topics and cache keys *)






(** ** The proxy *)

Import Proxy.

Lemma subscribeToSymbols_clientWss symbols depth p :
  clientWss (subscribeToSymbols symbols depth p) = clientWss p.
Proof.
  unfold subscribeToSymbols. destruct (negb (is_open p)); [done|].
  by destruct (filter _ symbols).
Qed.

Lemma subscribeToSymbols_snapshotCache symbols depth p :
  snapshotCache (subscribeToSymbols symbols depth p) = snapshotCache p.
Proof.
  unfold subscribeToSymbols. destruct (negb (is_open p)); [done|].
  by destruct (filter _ symbols).
Qed.

Lemma unsubscribeFromSymbols_snapshotCache symbols depth p :
  snapshotCache (unsubscribeFromSymbols symbols depth p) = snapshotCache p.
Proof.
  unfold unsubscribeFromSymbols. destruct (negb (is_open p)); [done|].
  by destruct (filter _ symbols).
Qed.

Lemma client_at_client_send ws x p c :
  client_at ws p = Some c →
  client_at ws (client_send ws x p) = Some (client_push x c).
Proof.
  unfold client_at, client_send. simpl.
  destruct (clientWss p) as [cs|]; simpl; [|done].
  intros Hc. by rewrite list_lookup_alter_eq, Hc.
Qed.

Lemma handleBybitMessage_data m p :
  orderbook_data m →
  handleBybitMessage m p = broadcast m (cache_snapshot m p).
Proof.
  intros (Hpong & Hsub & topic & Ht & Hsw).
  unfold handleBybitMessage, cache_snapshot.
  rewrite !bool_decide_false by done. unfold cacheKey_of. by rewrite Ht, Hsw.
Qed.

Lemma cache_snapshot_clientWss m p : clientWss (cache_snapshot m p) = clientWss p.
Proof. unfold cache_snapshot. by case_bool_decide. Qed.

Lemma cache_snapshot_subscribedSymbols m p :
  subscribedSymbols (cache_snapshot m p) = subscribedSymbols p.
Proof. unfold cache_snapshot. by case_bool_decide. Qed.

Lemma handleBybitMessage_other m p :
  ¬ orderbook_data m → handleBybitMessage m p = p.
Proof.
  intros Hn. unfold handleBybitMessage.
  case_bool_decide as Hpong; [done|]. case_bool_decide as Hsub; [done|].
  destruct (msg_topic m) as [topic|] eqn:Ht; [|done].
  destruct (startsWith "orderbook" topic) eqn:Hsw; [|done].
  exfalso. apply Hn. split_and!; [done|done|]. by exists topic.
Qed.

Lemma broadcast_snapshotCache m p : snapshotCache (broadcast m p) = snapshotCache p.
Proof. unfold broadcast. by destruct (clientWss p). Qed.

Lemma broadcast_clientWss m p :
  clientWss (broadcast m p) = map (deliver m) <$> clientWss p.
Proof.
  unfold broadcast. destruct (clientWss p) as [cs|] eqn:E; simpl; [done|].
  by rewrite E.
Qed.

Lemma orderbook_data_dec m : Decision (orderbook_data m).
Proof.
  unfold orderbook_data.
  destruct (msg_topic m) as [topic|].
  - destruct (startsWith "orderbook" topic) eqn:E.
    + destruct (decide (msg_op m = Some "pong")) as [?|?]; [right; tauto|].
      destruct (decide (msg_op m = Some "subscribe")) as [?|?]; [right; tauto|].
      left. split_and!; [done|done|]. by exists topic.
    + right. intros (_ & _ & t & [= <-] & Ht). congruence.
  - right. by intros (_ & _ & t & [=] & _).
Qed.



(** *** Broadcast *)

(** Claim C10.  An order-book data message, snapshot or delta and whatever
    its topic, is passed as it is to [send] on every client whose socket is
    open and on no other; what any client has subscribed to plays no part:
    the proxy keeps no subscriptions per client, and its own subscription set
    is neither consulted nor changed. *)
Theorem broadcast_unfiltered (m : Message) (p : BybitProxy) :
  orderbook_data m →
  clientWss (handleBybitMessage m p) = map (deliver m) <$> clientWss p ∧
  subscribedSymbols (handleBybitMessage m p) = subscribedSymbols p ∧
  (∀ ws c, client_at ws p = Some c →
     ∃ c', client_at ws (handleBybitMessage m p) = Some c' ∧
           readyState c' = readyState c ∧
           sent c' = if bool_decide (readyState c = OPEN)
                     then sent c ++ [JsonMessage m] else sent c).
Proof.
  intros Hd. rewrite handleBybitMessage_data by done.
  rewrite broadcast_clientWss, cache_snapshot_clientWss. split_and!.
  - done.
  - unfold broadcast. rewrite cache_snapshot_clientWss.
    destruct (clientWss p); simpl; apply cache_snapshot_subscribedSymbols.
  - intros ws c Hc. unfold client_at in *.
    rewrite broadcast_clientWss, cache_snapshot_clientWss.
    destruct (clientWss p) as [cs|]; simpl in *; [|done].
    rewrite list_lookup_fmap, Hc. simpl. eexists; split; [done|].
    unfold deliver. by case_bool_decide.
Qed.

Lemma broadcast_unfiltered_witness :
  let m := dataMessage "orderbook.200.ETHUSDT" "delta" upsert_delta in
  let p := set_subscribedSymbols ["BTCUSDT-50"]
             (set_clients (Some [mkClient OPEN []; mkClient CLOSED []]) new) in
  orderbook_data m ∧
  clientWss (handleBybitMessage m p)
    = Some [mkClient OPEN [JsonMessage m]; mkClient CLOSED []].
Proof.
  intros m p.
  assert (Hd : orderbook_data m).
  { split_and!; [done|done|]. by exists "orderbook.200.ETHUSDT". }
  split; [exact Hd|].
  destruct (broadcast_unfiltered m p Hd) as (-> & _). reflexivity.
Defined.

(** *** The snapshot cache *)

Lemma handleClientMessage_snapshotCache now ws data p :
  snapshotCache (handleClientMessage now ws data p) = snapshotCache p.
Proof.
  unfold handleClientMessage. case_bool_decide; [done|].
  destruct (cd_symbols data) as [symbols|]; [|done].
  assert (Hfold : ∀ q d,
    snapshotCache
      (fold_left
         (λ p (symbol : string),
            match snapshotCache p !! (symbol ++ "-" ++ Number_toString d)%string with
            | Some cachedSnapshot => client_send ws (JsonMessage cachedSnapshot) p
            | None => p
            end) symbols q) = snapshotCache q).
  { intros q d. revert q. induction symbols as [|s symbols IH]; intros q; [done|].
    cbn [fold_left]. rewrite IH. by destruct (snapshotCache q !! _). }
  repeat case_bool_decide; simpl;
    rewrite ?unsubscribeFromSymbols_snapshotCache; simpl;
    rewrite ?Hfold, ?subscribeToSymbols_snapshotCache; done.
Qed.

(** The cached snapshots go to the subscriber in the order of its symbols. *)
Lemma send_cached_snapshots ws depth symbols p c :
  client_at ws p = Some c →
  let p' :=
    fold_left
      (λ p (symbol : string),
         match snapshotCache p !! (symbol ++ "-" ++ Number_toString depth)%string with
         | Some cachedSnapshot => client_send ws (JsonMessage cachedSnapshot) p
         | None => p
         end) symbols p in
  snapshotCache p' = snapshotCache p ∧
  ∃ c', client_at ws p' = Some c' ∧
        sent c' = sent c ++ cached_for (snapshotCache p) symbols depth.
Proof.
  revert p c. induction symbols as [|s symbols IH]; intros p c Hc; simpl.
  - split; [done|]. exists c. by rewrite app_nil_r.
  - fold (key_of s depth).
    destruct (snapshotCache p !! key_of s depth) as [snap|] eqn:E; simpl.
    + destruct (IH (client_send ws (JsonMessage snap) p) (client_push (JsonMessage snap) c))
        as (Hcache & c' & Hc' & Hs); [by apply client_at_client_send|].
      split; [done|]. exists c'. split; [done|].
      rewrite Hs. simpl. by rewrite <- app_assoc.
    + by apply IH.
Qed.



(** *** Resubscription on open *)

Lemma filter_Forall_id {A} (P : A → Prop) `{∀ x, Decision (P x)} (l : list A) :
  Forall P l → filter P l = l.
Proof.
  induction 1 as [|x l Hx Hl IH]; [done|].
  rewrite filter_cons_True by done. by rewrite IH.
Qed.

(** What ['open'] sends when no stored key extended by [-50] is itself a
    stored key: one subscribe request whose arguments are the stored keys,
    each behind [orderbook.50.]. *)
Lemma on_open_resubscribes p ws :
  bybitWs p = Some ws → subscribedSymbols p ≠ [] →
  (∀ key, key ∈ subscribedSymbols p → key_of key 50 ∉ subscribedSymbols p) →
  bybitWs (on_open p) =
    Some {| ws_readyState := OPEN;
            ws_sent := ws_sent ws
                         ++ [Subscribe (map (λ key, topic_of key 50)
                                          (subscribedSymbols p))] |}.
Proof.
  intros Hws Hne Hfresh. unfold on_open. simpl.
  destruct (subscribedSymbols p) as [|k ks] eqn:Hks; [done|].
  unfold subscribeToSymbols, is_open. simpl. rewrite Hws. simpl.
  assert (Hall : filter (λ symbol : string,
                           (symbol ++ "-" ++ Number_toString 50)%string ∉ k :: ks)
                        (k :: ks) = k :: ks).
  { apply filter_Forall_id, Forall_forall. intros key Hkey.
    by apply Hfresh. }
  rewrite Hall. done.
Qed.

(** Claim C4, on the code.  After a client subscribed to BTCUSDT at depth 200
    the proxy holds the key [BTCUSDT-200] and has asked upstream for
    [orderbook.200.BTCUSDT].  When the connection is made anew and opens, the
    request sent is for [orderbook.50.BTCUSDT-200]: the stored key is used as
    the symbol and the depth falls back to 50; and the set gains the key
    [BTCUSDT-200-50]. *)
Theorem resubscribe_uses_keys_as_symbols :
  subscribedSymbols proxy_subscribed = ["BTCUSDT-200"] ∧
  ws_sent <$> bybitWs proxy_subscribed
    = Some [Subscribe [topic_of "BTCUSDT" 200]] ∧
  topic_of "BTCUSDT" 200 = "orderbook.200.BTCUSDT" ∧
  ws_sent <$> bybitWs proxy_reconnected
    = Some [Subscribe ["orderbook.50.BTCUSDT-200"]] ∧
  subscribedSymbols proxy_reconnected = ["BTCUSDT-200"; "BTCUSDT-200-50"].
Proof. by vm_compute. Qed.

(** * Further properties *)

(** ** Subscriptions of the proxy *)

Lemma Set_add_elem_of x y s : y ∈ Set_add x s ↔ y = x ∨ y ∈ s.
Proof.
  unfold Set_add. case_bool_decide as Hx.
  - split; [by right|]. intros [->|?]; done.
  - rewrite elem_of_app, list_elem_of_singleton. tauto.
Qed.

Lemma Set_add_NoDup x s : NoDup s → NoDup (Set_add x s).
Proof.
  intros Hs. unfold Set_add. case_bool_decide as Hx; [done|].
  apply NoDup_app. split_and!; [done| |apply NoDup_singleton].
  intros y Hy ->%list_elem_of_singleton. done.
Qed.

Lemma Set_addAll_elem_of (f : string → string) xs s y :
  y ∈ fold_left (λ s x, Set_add (f x) s) xs s ↔ y ∈ f <$> xs ∨ y ∈ s.
Proof.
  revert s. induction xs as [|x xs IH]; intros s; cbn [fold_left].
  - rewrite fmap_nil, elem_of_nil. tauto.
  - rewrite IH, Set_add_elem_of, fmap_cons, elem_of_cons. tauto.
Qed.

Lemma Set_addAll_NoDup (f : string → string) xs s :
  NoDup s → NoDup (fold_left (λ s x, Set_add (f x) s) xs s).
Proof.
  revert s. induction xs as [|x xs IH]; intros s Hs; simpl; [done|].
  by apply IH, Set_add_NoDup.
Qed.

(** Adding keys of which none is in the set appends them, each once. *)
Lemma Set_addAll_app (f : string → string) xs s :
  ∃ added, fold_left (λ s x, Set_add (f x) s) xs s = s ++ added
           ∧ ∀ y, y ∈ added → y ∈ f <$> xs.
Proof.
  revert s. induction xs as [|x xs IH]; intros s; cbn [fold_left].
  - exists []. by rewrite app_nil_r.
  - destruct (IH (Set_add (f x) s)) as (added & -> & Hadded).
    unfold Set_add. case_bool_decide.
    + exists added. split; [done|]. intros y Hy. rewrite fmap_cons.
      right. by apply Hadded.
    + exists (f x :: added). rewrite <- app_assoc. split; [done|].
      intros y [->|Hy]%elem_of_cons; rewrite fmap_cons; [by left|].
      right. by apply Hadded.
Qed.

Lemma Set_deleteAll_filter (f : string → string) xs s :
  fold_left (λ s x, Set_delete (f x) s) xs s = filter (λ y, y ∉ f <$> xs) s.
Proof.
  revert s. induction xs as [|x xs IH]; intros s; cbn [fold_left].
  - symmetry. apply filter_Forall_id, Forall_forall. intros y _.
    rewrite fmap_nil. apply not_elem_of_nil.
  - rewrite IH. unfold Set_delete. rewrite list_filter_filter.
    apply list_filter_iff. intros y. rewrite fmap_cons, not_elem_of_cons. tauto.
Qed.

Lemma is_open_true p :
  is_open p = true ↔ ∃ ws, bybitWs p = Some ws ∧ ws_readyState ws = OPEN.
Proof.
  unfold is_open. destruct (bybitWs p) as [ws|].
  - rewrite bool_decide_eq_true. split; [by exists ws|]. by intros (? & [= <-] & ?).
  - split; [done|]. by intros (? & [=] & _).
Qed.

(** What [subscribeToSymbols] does on an open socket, in one equation. *)
Lemma subscribeToSymbols_open symbols depth p :
  is_open p = true →
  let fresh := filter (λ symbol, key_of symbol depth ∉ subscribedSymbols p) symbols in
  subscribeToSymbols symbols depth p =
    match fresh with
    | [] => p
    | _ :: _ =>
        set_subscribedSymbols
          (fold_left (λ s symbol, Set_add (key_of symbol depth) s) fresh
             (subscribedSymbols p))
          (bybit_send (Subscribe ((λ symbol, topic_of symbol depth) <$> fresh)) p)
    end.
Proof. intros Ho. unfold subscribeToSymbols. by rewrite Ho. Qed.

Lemma upstream_sent_bybit_send r p :
  is_open p = true → upstream_sent (bybit_send r p) = upstream_sent p ++ [r].
Proof.
  intros (ws & Hws & _)%is_open_true. unfold upstream_sent, bybit_send. simpl.
  by rewrite Hws.
Qed.

(** Property X1.  On an open upstream socket [subscribeToSymbols] leaves every
    requested key active and every active key active, keeps the set free of
    duplicates, and asks upstream in one request for exactly the symbols whose
    key was not active, or sends nothing when there is none. *)
Theorem subscribeToSymbols_spec (symbols : list string) (depth : nat)
    (p : BybitProxy) :
  is_open p = true → NoDup (subscribedSymbols p) →
  let p' := subscribeToSymbols symbols depth p in
  let fresh := filter (λ symbol, key_of symbol depth ∉ subscribedSymbols p) symbols in
  (∀ key, key ∈ subscribedSymbols p' ↔
          key ∈ keys_of symbols depth ∨ key ∈ subscribedSymbols p) ∧
  NoDup (subscribedSymbols p') ∧
  upstream_sent p' =
    upstream_sent p ++
    match fresh with
    | [] => []
    | _ :: _ => [Subscribe ((λ symbol, topic_of symbol depth) <$> fresh)]
    end.
Proof.
  intros Ho Hnd p' fresh. unfold p'. rewrite subscribeToSymbols_open by done.
  assert (Hfresh : ∀ symbol, symbol ∈ fresh ↔
            (key_of symbol depth ∉ subscribedSymbols p) ∧ (symbol ∈ symbols))
    by (intros; unfold fresh; by rewrite list_elem_of_filter).
  fold fresh. clearbody fresh. destruct fresh as [|s fresh'].
  - split_and!; [|done|by rewrite app_nil_r].
    intros key. split; [by right|]. intros [Hk|Hk]; [|done].
    apply list_elem_of_fmap in Hk as (symbol & -> & Hs).
    destruct (decide (key_of symbol depth ∈ subscribedSymbols p)) as [|Hn]; [done|].
    assert (symbol ∈ @nil string) as Hin by (by apply Hfresh).
    by apply elem_of_nil in Hin.
  - set (fresh := s :: fresh') in *.
    cbn [subscribedSymbols set_subscribedSymbols bybit_send]. split_and!.
    + intros key. rewrite (Set_addAll_elem_of (λ symbol, key_of symbol depth)).
      split.
      * intros [Hk|Hk]; [left|by right].
        apply list_elem_of_fmap in Hk as (symbol & -> & Hs).
        apply list_elem_of_fmap. exists symbol. split; [done|].
        by apply Hfresh in Hs as [_ Hs].
      * intros [Hk|Hk]; [|by right].
        apply list_elem_of_fmap in Hk as (symbol & -> & Hs).
        destruct (decide (key_of symbol depth ∈ subscribedSymbols p)) as [|Hn];
          [by right|left].
        apply list_elem_of_fmap. exists symbol. split; [done|].
        by apply Hfresh.
    + by apply (Set_addAll_NoDup (λ symbol, key_of symbol depth)).
    + unfold upstream_sent. simpl.
      apply is_open_true in Ho as (ws & -> & _). done.
Qed.

Lemma subscribeToSymbols_spec_witness :
  is_open proxy_ready = true ∧ NoDup (subscribedSymbols proxy_ready) ∧
  upstream_sent (subscribeToSymbols ["BTCUSDT"; "ETHUSDT"] 200 proxy_ready)
    = upstream_sent proxy_ready
        ++ [Subscribe ["orderbook.200.BTCUSDT"; "orderbook.200.ETHUSDT"]].
Proof.
  split_and!; [reflexivity|constructor|].
  apply (subscribeToSymbols_spec ["BTCUSDT"; "ETHUSDT"] 200 proxy_ready);
    [reflexivity|constructor].
Defined.

Lemma filter_nil_iff_aux {A} (P : A → Prop) `{∀ x, Decision (P x)} (l : list A) :
  (∀ x, x ∈ l → ¬ P x) → filter P l = [].
Proof.
  induction l as [|x l IH]; intros Hl; [done|].
  rewrite filter_cons_False by (apply Hl; by left).
  apply IH. intros y Hy. apply Hl. by right.
Qed.

Lemma filter_ext_elem_of {A} (P Q : A → Prop) `{∀ x, Decision (P x)}
    `{∀ x, Decision (Q x)} (l : list A) :
  (∀ x, x ∈ l → P x ↔ Q x) → filter P l = filter Q l.
Proof.
  induction l as [|x l IH]; intros Hl; [done|].
  rewrite !filter_cons.
  rewrite IH by (intros y Hy; apply Hl; by right).
  destruct (decide (P x)) as [HP|HP], (decide (Q x)) as [HQ|HQ]; try done.
  - exfalso. apply HQ, Hl; [by left|done].
  - exfalso. apply HP, Hl; [by left|done].
Qed.

Lemma is_open_bybit_send r p : is_open (bybit_send r p) = is_open p.
Proof. unfold is_open, bybit_send. simpl. by destruct (bybitWs p). Qed.

Lemma is_open_set_subscribedSymbols s p :
  is_open (set_subscribedSymbols s p) = is_open p.
Proof. reflexivity. Qed.

(** Property X2.  Subscribing again to the same symbols at the same depth
    changes nothing and sends nothing, whatever the state of the proxy. *)
Theorem subscribeToSymbols_again (symbols : list string) (depth : nat)
    (p : BybitProxy) :
  subscribeToSymbols symbols depth (subscribeToSymbols symbols depth p)
    = subscribeToSymbols symbols depth p.
Proof.
  destruct (is_open p) eqn:Ho.
  - rewrite (subscribeToSymbols_open symbols depth p Ho). simpl.
    destruct (filter _ symbols) as [|s fresh] eqn:Hfresh.
    + rewrite (subscribeToSymbols_open symbols depth p Ho). simpl.
      by rewrite Hfresh.
    + rewrite subscribeToSymbols_open
        by (by rewrite is_open_set_subscribedSymbols, is_open_bybit_send).
      cbn [subscribedSymbols set_subscribedSymbols].
      rewrite (filter_nil_iff_aux _ symbols); [done|].
      intros symbol Hs Hn'. apply Hn'.
      rewrite (Set_addAll_elem_of (λ symbol, key_of symbol depth)).
      destruct (decide (key_of symbol depth ∈ subscribedSymbols p)) as [|Hn];
        [by right|left].
      apply list_elem_of_fmap. exists symbol. split; [done|].
      rewrite <- Hfresh, list_elem_of_filter. done.
  - assert (H : subscribeToSymbols symbols depth p = p)
      by (unfold subscribeToSymbols; by rewrite Ho).
    by rewrite !H.
Qed.

Lemma subscribeToSymbols_closed symbols depth p :
  is_open p = false → subscribeToSymbols symbols depth p = p.
Proof. intros Ho. unfold subscribeToSymbols. by rewrite Ho. Qed.

Lemma handleClientMessage_subscribe now ws data symbols p :
  cd_type data ≠ Some "ping" → cd_action data = Some "subscribe" →
  cd_symbols data = Some symbols →
  handleClientMessage now ws data p =
    client_send ws (JsonSubscribed symbols (orderDepth (cd_depth data)))
      (fold_left
         (λ p (symbol : string),
            match snapshotCache p
                    !! (symbol ++ "-" ++ Number_toString (orderDepth (cd_depth data)))%string with
            | Some cachedSnapshot => client_send ws (JsonMessage cachedSnapshot) p
            | None => p
            end) symbols
         (subscribeToSymbols symbols (orderDepth (cd_depth data)) p)).
Proof.
  intros Hping Hact Hsym. unfold handleClientMessage.
  rewrite bool_decide_false by done. rewrite Hsym, Hact.
  rewrite (bool_decide_true (Some "subscribe" = Some "subscribe")) by done.
  by rewrite (bool_decide_false (Some "subscribe" = Some "unsubscribe")).
Qed.

Lemma send_cached_snapshots_frame ws depth symbols p :
  let p' :=
    fold_left
      (λ p (symbol : string),
         match snapshotCache p !! (symbol ++ "-" ++ Number_toString depth)%string with
         | Some cachedSnapshot => client_send ws (JsonMessage cachedSnapshot) p
         | None => p
         end) symbols p in
  bybitWs p' = bybitWs p ∧ subscribedSymbols p' = subscribedSymbols p.
Proof.
  revert p. induction symbols as [|s symbols IH]; intros p; [done|].
  cbn [fold_left]. destruct (snapshotCache p !! _) as [snap|]; [|apply IH].
  destruct (IH (client_send ws (JsonMessage snap) p)) as [-> ->]. done.
Qed.

(** Property X3.  While the upstream socket is missing or not open, a client's
    subscribe request is acknowledged all the same: the client is sent the
    cached snapshots and the [subscribed] message, but nothing goes upstream
    and the active set stays as it was: the request leaves no trace for the
    time the socket opens. *)
Theorem subscribe_while_down_is_acknowledged (now : Z) (ws : nat)
    (data : ClientData) (symbols : list string) (p : BybitProxy) (c : Client) :
  is_open p = false →
  cd_type data ≠ Some "ping" → cd_action data = Some "subscribe" →
  cd_symbols data = Some symbols → client_at ws p = Some c →
  let p' := handleClientMessage now ws data p in
  let depth := orderDepth (cd_depth data) in
  bybitWs p' = bybitWs p ∧ subscribedSymbols p' = subscribedSymbols p ∧
  ∃ c', client_at ws p' = Some c' ∧
        sent c' = sent c ++ cached_for (snapshotCache p) symbols depth
                    ++ [JsonSubscribed symbols depth].
Proof.
  intros Ho Hping Hact Hsym Hc p' depth. unfold p'.
  rewrite (handleClientMessage_subscribe now ws data symbols p) by done.
  fold depth. rewrite subscribeToSymbols_closed by done.
  destruct (send_cached_snapshots_frame ws depth symbols p) as [Hws Hset].
  destruct (send_cached_snapshots ws depth symbols p c Hc) as (_ & c2 & Hc2 & Hs2).
  split_and!; [done|done|].
  exists (client_push (JsonSubscribed symbols depth) c2).
  split; [by apply client_at_client_send|].
  simpl. by rewrite Hs2, <- app_assoc.
Qed.

Lemma subscribe_while_down_is_acknowledged_witness :
  is_open proxy_down = false ∧
  let p' := handleClientMessage 0 0 (subscribe_request ["BTCUSDT"] 50) proxy_down in
  subscribedSymbols p' = [] ∧
  ∃ c', client_at 0 p' = Some c' ∧
        sent c' = [] ++ cached_for (snapshotCache proxy_down) ["BTCUSDT"] 50
                    ++ [JsonSubscribed ["BTCUSDT"] 50].
Proof.
  split; [reflexivity|].
  destruct (subscribe_while_down_is_acknowledged 0 0
              (subscribe_request ["BTCUSDT"] 50) ["BTCUSDT"] proxy_down
              (mkClient OPEN [])) as (_ & Hset & Hc);
    [reflexivity|discriminate|reflexivity|reflexivity|reflexivity|].
  split; [exact Hset|exact Hc].
Defined.

(** What [unsubscribeFromSymbols] does on an open socket, in one equation. *)
Lemma unsubscribeFromSymbols_open symbols depth p :
  is_open p = true →
  let active := filter (λ symbol, key_of symbol depth ∈ subscribedSymbols p) symbols in
  unsubscribeFromSymbols symbols depth p =
    match active with
    | [] => p
    | _ :: _ =>
        set_subscribedSymbols
          (fold_left (λ s symbol, Set_delete (key_of symbol depth) s) active
             (subscribedSymbols p))
          (bybit_send (Unsubscribe ((λ symbol, topic_of symbol depth) <$> active)) p)
    end.
Proof. intros Ho. unfold unsubscribeFromSymbols. by rewrite Ho. Qed.

Lemma unsubscribeFromSymbols_open_spec symbols depth p :
  is_open p = true →
  let p' := unsubscribeFromSymbols symbols depth p in
  let active := filter (λ symbol, key_of symbol depth ∈ subscribedSymbols p) symbols in
  subscribedSymbols p'
    = filter (λ key, key ∉ keys_of symbols depth) (subscribedSymbols p) ∧
  upstream_sent p' =
    upstream_sent p ++
    match active with
    | [] => []
    | _ :: _ => [Unsubscribe ((λ symbol, topic_of symbol depth) <$> active)]
    end.
Proof.
  intros Ho p' active. unfold p'. rewrite unsubscribeFromSymbols_open by done.
  assert (Hactive : ∀ symbol, symbol ∈ active ↔
            (key_of symbol depth ∈ subscribedSymbols p) ∧ (symbol ∈ symbols))
    by (intros; unfold active; by rewrite list_elem_of_filter).
  assert (Hfilter :
    filter (λ key, key ∉ (λ symbol, key_of symbol depth) <$> active) (subscribedSymbols p)
    = filter (λ key, key ∉ keys_of symbols depth) (subscribedSymbols p)).
  { apply filter_ext_elem_of. intros key Hkey. unfold keys_of.
    rewrite !list_elem_of_fmap. split; intros Hn (symbol & -> & Hs); apply Hn.
    - exists symbol. split; [done|]. by apply Hactive.
    - exists symbol. split; [done|]. by apply Hactive in Hs as [_ ?]. }
  fold active. clearbody active. destruct active as [|s active'].
  - split; [|by rewrite app_nil_r].
    rewrite <- Hfilter. symmetry. apply filter_Forall_id, Forall_forall.
    intros key _. rewrite fmap_nil. apply not_elem_of_nil.
  - cbn [subscribedSymbols set_subscribedSymbols bybit_send]. split.
    + by rewrite (Set_deleteAll_filter (λ symbol, key_of symbol depth)).
    + unfold upstream_sent. simpl.
      apply is_open_true in Ho as (ws & -> & _). done.
Qed.

(** Property X4.  On an open upstream socket [unsubscribeFromSymbols] removes
    exactly the requested keys from the active set, in place, and asks
    upstream in one request for exactly the symbols whose key was active, or
    sends nothing when there is none; on a socket that is missing or not open
    it does nothing at all. *)
Theorem unsubscribeFromSymbols_spec (symbols : list string) (depth : nat)
    (p : BybitProxy) :
  let p' := unsubscribeFromSymbols symbols depth p in
  let active := filter (λ symbol, key_of symbol depth ∈ subscribedSymbols p) symbols in
  (is_open p = false → p' = p) ∧
  (is_open p = true →
   subscribedSymbols p'
     = filter (λ key, key ∉ keys_of symbols depth) (subscribedSymbols p) ∧
   upstream_sent p' =
     upstream_sent p ++
     match active with
     | [] => []
     | _ :: _ => [Unsubscribe ((λ symbol, topic_of symbol depth) <$> active)]
     end).
Proof.
  intros p' active. split.
  { intros Ho. unfold p', unsubscribeFromSymbols. by rewrite Ho. }
  intros Ho. by apply unsubscribeFromSymbols_open_spec.
Qed.

Lemma unsubscribeFromSymbols_spec_witness :
  is_open proxy_subscribed = true ∧
  subscribedSymbols (unsubscribeFromSymbols ["BTCUSDT"; "ETHUSDT"] 200 proxy_subscribed)
    = filter (λ key, key ∉ keys_of ["BTCUSDT"; "ETHUSDT"] 200)
        (subscribedSymbols proxy_subscribed).
Proof.
  split; [reflexivity|].
  apply (unsubscribeFromSymbols_spec ["BTCUSDT"; "ETHUSDT"] 200 proxy_subscribed).
  reflexivity.
Defined.

(** Property X5.  On an open upstream socket, subscribing to symbols of which
    none was active and then unsubscribing from the same symbols gives back
    the active set as it was, order included. *)
Theorem subscribe_unsubscribe_restores (symbols : list string) (depth : nat)
    (p : BybitProxy) :
  is_open p = true →
  (∀ symbol, symbol ∈ symbols → key_of symbol depth ∉ subscribedSymbols p) →
  subscribedSymbols
    (unsubscribeFromSymbols symbols depth (subscribeToSymbols symbols depth p))
  = subscribedSymbols p.
Proof.
  intros Ho Hnone.
  assert (Ho' : is_open (subscribeToSymbols symbols depth p) = true).
  { rewrite subscribeToSymbols_open by done. simpl.
    destruct (filter _ symbols); [done|].
    by rewrite is_open_set_subscribedSymbols, is_open_bybit_send. }
  destruct (unsubscribeFromSymbols_open_spec symbols depth
              (subscribeToSymbols symbols depth p) Ho') as [-> _].
  rewrite subscribeToSymbols_open by done. simpl.
  assert (Hold : filter (λ key, key ∉ keys_of symbols depth) (subscribedSymbols p)
                 = subscribedSymbols p).
  { apply filter_Forall_id, Forall_forall. intros key Hkey Hin.
    apply list_elem_of_fmap in Hin as (symbol & -> & Hs). by apply (Hnone symbol). }
  destruct (filter (λ symbol : string, key_of symbol depth ∉ subscribedSymbols p)
              symbols) as [|s fresh] eqn:Hfresh; [done|].
  cbn [subscribedSymbols set_subscribedSymbols bybit_send].
  destruct (Set_addAll_app (λ symbol, key_of symbol depth) (s :: fresh)
              (subscribedSymbols p)) as (added & -> & Hadded).
  rewrite filter_app, Hold.
  rewrite (filter_nil_iff_aux _ added); [by rewrite app_nil_r|].
  intros key Hkey Hn. apply Hn. apply Hadded in Hkey.
  apply list_elem_of_fmap in Hkey as (symbol & -> & Hs).
  apply list_elem_of_fmap. exists symbol. split; [done|].
  rewrite <- Hfresh in Hs. by apply list_elem_of_filter in Hs as [_ ?].
Qed.

Lemma subscribe_unsubscribe_restores_witness :
  is_open proxy_subscribed = true ∧
  subscribedSymbols
    (unsubscribeFromSymbols ["ETHUSDT"; "SOLUSDT"] 50
       (subscribeToSymbols ["ETHUSDT"; "SOLUSDT"] 50 proxy_subscribed))
  = subscribedSymbols proxy_subscribed.
Proof.
  split; [reflexivity|].
  apply (subscribe_unsubscribe_restores ["ETHUSDT"; "SOLUSDT"] 50 proxy_subscribed).
  - reflexivity.
  - intros symbol Hs Hin. vm_compute in Hin.
    apply list_elem_of_singleton in Hin.
    apply elem_of_cons in Hs as [->|Hs]; [discriminate Hin|].
    apply list_elem_of_singleton in Hs as ->. discriminate Hin.
Defined.

(** ** One client among the others *)

Lemma client_at_client_send_ne ws ws' x p :
  ws' ≠ ws → client_at ws' (client_send ws x p) = client_at ws' p.
Proof.
  intros Hne. unfold client_at, client_send. simpl.
  destruct (clientWss p) as [cs|]; simpl; [|done].
  by apply list_lookup_alter_ne.
Qed.

Lemma client_at_subscribeToSymbols ws symbols depth p :
  client_at ws (subscribeToSymbols symbols depth p) = client_at ws p.
Proof. unfold client_at. by rewrite subscribeToSymbols_clientWss. Qed.

Lemma unsubscribeFromSymbols_clientWss symbols depth p :
  clientWss (unsubscribeFromSymbols symbols depth p) = clientWss p.
Proof.
  unfold unsubscribeFromSymbols. destruct (negb (is_open p)); [done|].
  by destruct (filter _ symbols).
Qed.

Lemma send_cached_snapshots_ne ws ws' depth symbols p :
  ws' ≠ ws →
  client_at ws'
    (fold_left
       (λ p (symbol : string),
          match snapshotCache p !! (symbol ++ "-" ++ Number_toString depth)%string with
          | Some cachedSnapshot => client_send ws (JsonMessage cachedSnapshot) p
          | None => p
          end) symbols p)
  = client_at ws' p.
Proof.
  intros Hne. revert p. induction symbols as [|s symbols IH]; intros p; [done|].
  cbn [fold_left]. rewrite IH.
  destruct (snapshotCache p !! _); [by apply client_at_client_send_ne|done].
Qed.

(** Property X6.  Whatever a client sends, ping, subscribe, unsubscribe or
    anything else, nothing is sent to any other client: cached snapshots, the
    acknowledgment and the pong go to the sender only. *)
Theorem handleClientMessage_other_clients (now : Z) (ws ws' : nat)
    (data : ClientData) (p : BybitProxy) :
  ws' ≠ ws →
  client_at ws' (handleClientMessage now ws data p) = client_at ws' p.
Proof.
  intros Hne. unfold handleClientMessage.
  case_bool_decide; [by apply client_at_client_send_ne|].
  destruct (cd_symbols data) as [symbols|]; [|done].
  assert (Hsub : ∀ q, client_at ws' (unsubscribeFromSymbols symbols
                                       (orderDepth (cd_depth data)) q)
                      = client_at ws' q).
  { intros q. unfold client_at. by rewrite unsubscribeFromSymbols_clientWss. }
  repeat case_bool_decide; rewrite ?Hsub;
    rewrite ?client_at_client_send_ne, ?send_cached_snapshots_ne,
      ?client_at_subscribeToSymbols by done; done.
Qed.

Lemma handleClientMessage_other_clients_witness :
  1%nat ≠ 0%nat ∧
  client_at 1 (handleClientMessage 0 0 (subscribe_request ["BTCUSDT"] 50) proxy_ready)
    = client_at 1 proxy_ready.
Proof.
  split; [discriminate|].
  apply (handleClientMessage_other_clients 0 0 1). discriminate.
Defined.

(** ** The snapshot cache over time *)

Lemma caches_snapshot_for key m : caches key m = true ↔ snapshot_for key m.
Proof.
  unfold caches, snapshot_for, orderbook_data, cacheKey_of.
  rewrite !andb_true_iff, !negb_true_iff, !bool_decide_eq_false,
    bool_decide_eq_true.
  destruct (msg_topic m) as [topic|]; simpl.
  - rewrite andb_true_iff, bool_decide_eq_true. split.
    + intros (((? & ?) & ?) & ? & <-). split_and!; try done. by exists topic.
    + intros ((? & ? & t & [= <-] & ?) & ? & [= <-]). by split_and!.
  - split; [by intros (_ & [=])|]. by intros (_ & _ & [=]).
Qed.

Lemma handleBybitMessage_cache m p key :
  snapshotCache (handleBybitMessage m p) !! key
  = if caches key m then Some m else snapshotCache p !! key.
Proof.
  destruct (caches key m) eqn:E.
  - apply caches_snapshot_for in E as (Hd & Hty & Hkey).
    rewrite handleBybitMessage_data, broadcast_snapshotCache by done.
    unfold cache_snapshot. rewrite bool_decide_true by done. simpl.
    rewrite Hkey. simpl. apply lookup_insert_eq.
  - assert (Hn : ¬ snapshot_for key m).
    { intros H. apply caches_snapshot_for in H. congruence. }
    destruct (orderbook_data_dec m) as [Hd|Hd].
    + rewrite handleBybitMessage_data, broadcast_snapshotCache by done.
      unfold cache_snapshot. case_bool_decide as Hty; [|done]. simpl.
      apply lookup_insert_ne. intros Hkey. apply Hn. split_and!; [done|done|].
      destruct Hd as (_ & _ & topic & Ht & _).
      unfold cacheKey_of in *. rewrite Ht in *. simpl in *. by subst.
    + by rewrite handleBybitMessage_other.
Qed.

Lemma on_open_snapshotCache p : snapshotCache (on_open p) = snapshotCache p.
Proof.
  unfold on_open. simpl. destruct (subscribedSymbols p); [done|].
  by rewrite subscribeToSymbols_snapshotCache.
Qed.

Lemma heartbeat_tick_snapshotCache p :
  snapshotCache (heartbeat_tick p) = snapshotCache p.
Proof. unfold heartbeat_tick. by destruct (is_open p). Qed.

(** Property X7.  After any sequence of events the cache holds under each key
    the last upstream snapshot that arrived for that key, and what it held
    before if none arrived: entries are only ever overwritten by a newer
    snapshot for the same key; no reconnect, heartbeat, client message, delta
    or control message removes or changes one. *)
Theorem snapshotCache_latest (es : list ProxyEvent) (p : BybitProxy)
    (key : string) :
  snapshotCache (proxy_run es p) !! key
  = last_snapshot key es (snapshotCache p !! key).
Proof.
  revert p. induction es as [|e es IH]; intros p; [done|].
  unfold proxy_run, last_snapshot in *. cbn [fold_left]. rewrite IH. f_equal.
  destruct e as [| |m| | |now ws data]; simpl.
  - by rewrite on_open_snapshotCache.
  - done.
  - apply handleBybitMessage_cache.
  - done.
  - by rewrite heartbeat_tick_snapshotCache.
  - by rewrite handleClientMessage_snapshotCache.
Qed.

(** ** What the listener lets through *)

Lemma append_assoc (s1 s2 s3 : string) :
  ((s1 ++ s2) ++ s3 = s1 ++ (s2 ++ s3))%string.
Proof.
  induction s1 as [|c s1 IH]; [done|].
  change (String c ((s1 ++ s2) ++ s3) = String c (s1 ++ s2 ++ s3))%string.
  by rewrite IH.
Qed.

Lemma prefix_append (s t : string) : String.prefix s (s ++ t) = true.
Proof.
  induction s as [|c s IH]; [by destruct t|].
  change (String.prefix (String c s) (String c (s ++ t)) = true).
  simpl. destruct (Ascii.ascii_dec c c); [done|congruence].
Qed.

Lemma includes_prefix (needle hay : string) :
  String.prefix needle hay = true → includes needle hay = true.
Proof. intros H. destruct hay; cbn [includes]; by rewrite H. Qed.

Lemma includes_append (needle a b : string) :
  includes needle (a ++ needle ++ b) = true.
Proof.
  induction a as [|c a IH].
  - change ("" ++ needle ++ b)%string with (needle ++ b)%string.
    apply includes_prefix, prefix_append.
  - change (String c a ++ needle ++ b)%string with (String c (a ++ needle ++ b)).
    cbn [includes]. rewrite IH. apply orb_true_r.
Qed.

(** Property X8.  The listener for [symbol] and [depth] lets through every
    message on a topic [orderbook.<depth>.<S>] whose [S] contains [symbol]:
    its own topic, and the topic of any other symbol of which its own is a
    part. *)
Theorem listener_accepts_containing (symbol : string) (depth : nat)
    (before after : string) (m : Message) :
  msg_topic m = Some (topic_of (before ++ symbol ++ after) depth) →
  addressed symbol depth m.
Proof.
  intros Ht. exists (topic_of (before ++ symbol ++ after) depth).
  split_and!; [done|done| |].
  - assert (E : topic_of (before ++ symbol ++ after) depth
                = (("orderbook." ++ Number_toString depth ++ "." ++ before)
                     ++ symbol ++ after)%string)
      by (unfold topic_of; by rewrite !append_assoc).
    rewrite E. apply includes_append.
  - assert (E : topic_of (before ++ symbol ++ after) depth
                = (("orderbook." ++ Number_toString depth ++ ".")
                     ++ before ++ symbol ++ after)%string)
      by (unfold topic_of; by rewrite !append_assoc).
    rewrite E.
    apply (includes_append ("orderbook." ++ Number_toString depth ++ ".") ""
             (before ++ symbol ++ after)).
Qed.

Lemma listener_accepts_containing_witness :
  let m := dataMessage (topic_of "1000BTCUSDT" 50) "snapshot" scenario_snapshot in
  msg_topic m = Some (topic_of ("1000" ++ "BTCUSDT" ++ "") 50) ∧
  addressed "BTCUSDT" 50 m.
Proof.
  intros m. split; [reflexivity|].
  apply (listener_accepts_containing "BTCUSDT" 50 "1000" "" m). reflexivity.
Defined.

Lemma addressed_filter symbol depth m :
  addressed symbol depth m ↔
  ∃ topic, msg_topic m = Some topic ∧
    bool_decide (topic = "") || negb (includes symbol topic)
    || negb (includes ("orderbook." ++ Number_toString depth ++ ".") topic) = false.
Proof.
  unfold addressed. split; intros (topic & Ht & H); exists topic; (split; [done|]).
  - destruct H as (Hne & -> & ->). by rewrite bool_decide_false.
  - apply orb_false_iff in H as [[H1 H2]%orb_false_iff H3].
    apply bool_decide_eq_false in H1. apply negb_false_iff in H2, H3. done.
Qed.

(** Property X9.  The listener leaves the hook's state as it is while the hook
    is paused, for a message it does not let through, and for a message that
    is neither a snapshot nor a delta. *)
Theorem handleMessage_ignores (parseFloat : string → number) (symbol : string)
    (depth : nat) (clk : Clock) (st : HookState) (m : Message) :
  paused st = true ∨ ¬ addressed symbol depth m
  ∨ (msg_type m ≠ Some "snapshot" ∧ msg_type m ≠ Some "delta") →
  handleMessage parseFloat symbol depth clk st m = st.
Proof.
  intros H. unfold handleMessage. destruct (paused st) eqn:Hp; [done|].
  destruct (msg_topic m) as [topic|] eqn:Ht; [|done].
  destruct (_ || _) eqn:Hf; [done|].
  destruct H as [H|[H|[H1 H2]]]; [done| |].
  - exfalso. apply H, addressed_filter. by exists topic.
  - by rewrite !bool_decide_false.
Qed.

Lemma handleMessage_ignores_witness :
  let m := dataMessage (topic_of "ETHUSDT" 50) "snapshot" scenario_snapshot in
  ¬ addressed "BTCUSDT" 50 m ∧
  handleMessage hostParseFloat "BTCUSDT" 50 clock0 initialState m = initialState.
Proof.
  intros m.
  assert (Hn : ¬ addressed "BTCUSDT" 50 m).
  { intros (topic & Ht & _ & Hs & _). injection Ht as <-. discriminate Hs. }
  split; [exact Hn|].
  apply (handleMessage_ignores hostParseFloat "BTCUSDT" 50 clock0 initialState m).
  right. left. exact Hn.
Defined.

(** ** The loading flag *)

Lemma handleMessage_paused parseFloat symbol depth clk st m :
  paused (handleMessage parseFloat symbol depth clk st m) = paused st.
Proof. by destruct (handleMessage_cases parseFloat symbol depth clk st m). Qed.

Lemma handleMessage_isLoading parseFloat symbol depth clk st m :
  paused st = false →
  isLoading (handleMessage parseFloat symbol depth clk st m) = false ↔
  isLoading st = false
  ∨ (addressed symbol depth m ∧ msg_type m = Some "snapshot").
Proof.
  intros Hp. unfold handleMessage. rewrite Hp.
  destruct (msg_topic m) as [topic|] eqn:Ht.
  2:{ split; [by left|]. intros [?|[(t & Ht' & _) _]]; [done|congruence]. }
  destruct (_ || _) eqn:Hf.
  { split; [by left|]. intros [?|[Ha _]]; [done|].
    apply addressed_filter in Ha as (t & Ht' & Hf').
    rewrite Ht in Ht'. injection Ht' as <-. congruence. }
  assert (Ha : addressed symbol depth m)
    by (apply addressed_filter; by exists topic).
  clear Hf. case_bool_decide as Hty; simpl.
  - split; [by right|done].
  - case_bool_decide; simpl.
    all: split; [intros H'; left; exact H'|].
    all: intros [H'|[_ H']]; [exact H'|contradiction].
Qed.


Lemma listen_isLoading parseFloat symbol depth clk st frame :
  paused st = false →
  match listen parseFloat symbol depth clk st frame with
  | Some st' =>
      paused st' = false
      ∧ (isLoading st' = false ↔
         isLoading st = false ∨ snapshot_with_data_seen symbol depth [(clk, frame)])
  | None => delta_without_data_passed symbol depth [(clk, frame)]
  end.
Proof.
  intros Hp. destruct frame as [m|topic type]; cbn [listen].
  - split; [by rewrite handleMessage_paused|].
    rewrite handleMessage_isLoading by done. split.
    + intros [?|[Ha Hs]]; [by left|]. right. exists clk, m.
      split; [by left|done].
    + intros [?|(clk' & m' & Hin & Ha & Hs)]; [by left|].
      apply list_elem_of_singleton in Hin. injection Hin as -> ->. by right.
  - assert (Hno : ¬ snapshot_with_data_seen symbol depth
                      [(clk, NoData topic type)]).
    { intros (clk' & m' & Hin & _). apply list_elem_of_singleton in Hin.
      discriminate Hin. }
    rewrite Hp. destruct topic as [topic|]; [|by split; [|tauto]].
    destruct (_ || _) eqn:Hf; [by split; [|tauto]|].
    apply orb_false_iff in Hf as [[H1 H2]%orb_false_iff H3].
    apply bool_decide_eq_false in H1. apply negb_false_iff in H2, H3.
    destruct (decide (type = Some "snapshot")) as [Hs|Hs].
    { rewrite bool_decide_true by done. by split; [|tauto]. }
    rewrite bool_decide_false by done.
    destruct (decide (type = Some "delta")) as [Hd|Hd].
    2:{ rewrite bool_decide_false by done. by split; [|tauto]. }
    rewrite bool_decide_true by done.
    subst type. exists clk, topic. split; [by left|]. by split_and!.
Qed.

Lemma listenAll_isLoading parseFloat symbol depth frames st :
  paused st = false →
  match listenAll parseFloat symbol depth frames st with
  | Some st' =>
      isLoading st' = false ↔
      isLoading st = false ∨ snapshot_with_data_seen symbol depth frames
  | None => delta_without_data_passed symbol depth frames
  end.
Proof.
  revert st. induction frames as [|[clk frame] frames IH]; intros st Hp.
  - cbn [listenAll]. split; [by left|].
    intros [?|(clk & m & Hin & _)]; [done|]. by apply elem_of_nil in Hin.
  - cbn [listenAll].
    pose proof (listen_isLoading parseFloat symbol depth clk st frame Hp) as Hl.
    destruct (listen parseFloat symbol depth clk st frame) as [st1|].
    + destruct Hl as [Hp1 Hl]. specialize (IH st1 Hp1).
      destruct (listenAll parseFloat symbol depth frames st1) as [st2|].
      * rewrite IH, Hl. split.
        -- intros [[?|(c & m & Hin & H)]|(c & m & Hin & H)]; [by left| |].
           ++ right. exists c, m. split; [|done].
              apply list_elem_of_singleton in Hin. rewrite Hin. by left.
           ++ right. exists c, m. split; [by right|done].
        -- intros [?|(c & m & [Hin|Hin]%elem_of_cons & H)]; [by left; left| |].
           ++ left. right. exists c, m. split; [|done]. rewrite Hin. by left.
           ++ right. by exists c, m.
      * destruct IH as (c & topic & Hin & H). exists c, topic.
        split; [by right|done].
    + destruct Hl as (c & topic & Hin & H). exists c, topic. split; [|done].
      apply list_elem_of_singleton in Hin. rewrite Hin. by left.
Qed.

(** Property X10.  From the uninitialized state the loading flag is cleared
    by a snapshot that carries [data] and gets through the listener, and by
    nothing else: as long as the hook is there after a run of frames, the
    flag is off exactly if such a snapshot was among them.  Deltas fill the
    book while the hook still reports loading, and a snapshot without
    [data] changes nothing, as [applySnapshot] throws before it sets any
    state.  The hook is lost only to a delta without [data] that gets
    through. *)
Theorem isLoading_until_snapshot (parseFloat : string → number)
    (symbol : string) (depth : nat) (frames : list (Clock * Parsed)) :
  match listenAll parseFloat symbol depth frames initialState with
  | Some st => isLoading st = false ↔ snapshot_with_data_seen symbol depth frames
  | None => delta_without_data_passed symbol depth frames
  end.
Proof.
  pose proof (listenAll_isLoading parseFloat symbol depth frames initialState
                eq_refl) as H.
  destruct (listenAll parseFloat symbol depth frames initialState); [|done].
  rewrite H. cbn [isLoading initialState]. split; [by intros [?|?]|by right].
Qed.

(** ** What a delta does to one side *)

Lemma Map_get_elem_of m p v : NoDup m.*1 → Map_get p m = Some v ↔ (p, v) ∈ m.
Proof.
  induction m as [|[k w] m IH]; cbn [Map_get].
  - intros _. split; [done|by intros ?%elem_of_nil].
  - rewrite fmap_cons. intros [Hk Hm]%NoDup_cons. simpl in Hk.
    case_bool_decide as E.
    + subst. split.
      * intros [= ->]. by left.
      * intros [[= ->]|Hin]%elem_of_cons; [done|]. exfalso. apply Hk.
        apply list_elem_of_fmap. by exists (p, v).
    + rewrite IH by done. split; [by right|].
      intros [[= -> ->]|?]%elem_of_cons; done.
Qed.

Lemma Map_get_set k v m p :
  Map_get p (Map_set k v m) = if bool_decide (k = p) then Some v else Map_get p m.
Proof.
  induction m as [|[k0 v0] m IH]; cbn [Map_set Map_get]; [done|].
  destruct (bool_decide (k0 = k)) eqn:E0.
  - apply bool_decide_eq_true in E0 as ->. cbn [Map_get].
    by destruct (bool_decide (k = p)).
  - apply bool_decide_eq_false in E0. cbn [Map_get]. rewrite IH.
    repeat case_bool_decide; congruence.
Qed.

Lemma Map_get_delete k m p :
  Map_get p (Map_delete k m) = if bool_decide (k = p) then None else Map_get p m.
Proof.
  unfold Map_delete. induction m as [|[k0 v0] m IH]; [by case_bool_decide|].
  unfold level in *.
  destruct (decide (k0 = k)) as [->|Hne].
  - rewrite filter_cons_False by (simpl; intros H; by apply H).
    rewrite IH. cbn [Map_get]. by repeat case_bool_decide.
  - rewrite filter_cons_True by done. cbn [Map_get]. rewrite IH.
    repeat case_bool_decide; congruence.
Qed.

Lemma Map_get_setAll l m p :
  Map_get p (Map_setAll l m) =
  match last_size l p with Some s => Some s | None => Map_get p m end.
Proof.
  revert m. induction l as [|[k v] l IH]; intros m; [done|].
  rewrite Map_setAll_cons. cbn [last_size]. rewrite IH.
  destruct (last_size l p); [done|]. rewrite Map_get_set. by case_bool_decide.
Qed.

Lemma Map_get_new l p : Map_get p (Map_new l) = last_size l p.
Proof.
  change (Map_new l) with (Map_setAll l []). rewrite Map_get_setAll.
  by destruct (last_size l p).
Qed.

Lemma Map_get_patched parseFloat l m p :
  Map_get p (fold_left (applyEntry parseFloat) l m) =
  match last_size l p with
  | Some s => if strict_eq_zero (parseFloat s) then None else Some s
  | None => Map_get p m
  end.
Proof.
  revert m. induction l as [|[k v] l IH]; intros m; [done|].
  cbn [fold_left last_size]. rewrite IH.
  destruct (last_size l p); [done|].
  unfold applyEntry. destruct (strict_eq_zero (parseFloat v)) eqn:E.
  - rewrite Map_get_delete. case_bool_decide; [by rewrite E|done].
  - rewrite Map_get_set. case_bool_decide; [by rewrite E|done].
Qed.

Lemma Map_set_length k v m : (length (Map_set k v m) ≤ S (length m))%nat.
Proof.
  induction m as [|[k0 v0] m IH]; cbn [Map_set]; [done|].
  case_bool_decide; simpl; lia.
Qed.

Lemma applyEntries_length parseFloat l m :
  (length (fold_left (applyEntry parseFloat) l m) ≤ length m + length l)%nat.
Proof.
  revert m. induction l as [|[k v] l IH]; intros m; cbn [fold_left]; [simpl; lia|].
  etrans; [apply IH|]. unfold applyEntry. destruct (strict_eq_zero _).
  - pose proof (length_filter (λ e : level, e.1 ≠ k) m) as H.
    unfold Map_delete. cbn [length]. unfold level in *. lia.
  - pose proof (Map_set_length k v m) as H. cbn [length]. lia.
Qed.

Lemma patchedMap_length parseFloat entries current :
  distinct_keys current →
  (length (patchedMap parseFloat entries current)
   ≤ length current + length entries)%nat.
Proof.
  intros Hc. unfold patchedMap. rewrite Map_new_id by done.
  apply applyEntries_length.
Qed.

Lemma patchSide_patchedMap parseFloat comparefn depth entries current :
  entries ≠ [] →
  patchSide parseFloat comparefn depth entries current =
  take depth (sort comparefn (patchedMap parseFloat entries current)).
Proof. by destruct entries. Qed.

Lemma patchSide_upserted parseFloat comparefn depth entries current p s :
  distinct_keys current →
  (length current + length entries ≤ depth)%nat →
  (p, s) ∈ patchSide parseFloat comparefn depth entries current
  ↔ upserted parseFloat entries current p s.
Proof.
  intros Hc Hlen. destruct (decide (entries = [])) as [->|Hne]; [done|].
  rewrite patchSide_patchedMap by done.
  rewrite take_ge.
  2:{ rewrite (Permutation_length (sort_Permutation comparefn _)).
      etrans; [by apply patchedMap_length|done]. }
  rewrite sort_Permutation.
  rewrite <- Map_get_elem_of
    by (unfold patchedMap; apply applyEntries_NoDup, Map_new_NoDup).
  unfold patchedMap, upserted. rewrite Map_get_patched, Map_new_id by done.
  destruct (last_size entries p) as [s'|].
  - destruct (strict_eq_zero (parseFloat s')); split;
      [done|by intros [? _]|by intros [= ->]|by intros [_ ->]].
  - by apply Map_get_elem_of.
Qed.

(** Property X11.  A delta that fits the depth is an upsert by price: with no
    price twice on a side and room for every entry, a price is on the new side
    at a size exactly if the last entry for it carries that size and the size
    is not zero, or if no entry mentions the price and the old side had it at
    that size. Earlier entries for a price are overridden by the last one, and
    a zero size there removes the level whatever came before. *)
Theorem applyDelta_upsert (parseFloat : string → number) (depth : nat)
    (clk : Clock) (d : Data) (B : OrderBook) :
  is_one (or_else (data_u d) (updateId B)) = false →
  distinct_keys (bids B) → distinct_keys (asks B) →
  (length (bids B) + length (or_empty (data_b d)) ≤ depth)%nat →
  (length (asks B) + length (or_empty (data_a d)) ≤ depth)%nat →
  ∀ price size,
    ((price, size) ∈ bids (applyDelta parseFloat depth clk d B)
     ↔ upserted parseFloat (or_empty (data_b d)) (bids B) price size)
    ∧ ((price, size) ∈ asks (applyDelta parseFloat depth clk d B)
       ↔ upserted parseFloat (or_empty (data_a d)) (asks B) price size).
Proof.
  intros Hu Hb Ha Hlb Hla price size. rewrite applyDelta_patch by done.
  cbn [bids asks]. split; by apply patchSide_upserted.
Qed.

Lemma applyDelta_upsert_witness :
  ("98", "7") ∈ bids (applyDelta hostParseFloat 50 clock1 mixed_delta two_level_book)
  ∧ upserted hostParseFloat (or_empty (data_a mixed_delta)) (asks two_level_book)
      "101" "9".
Proof.
  destruct (applyDelta_upsert hostParseFloat 50 clock1 mixed_delta two_level_book)
    with (price := "98") (size := "7") as [Hb _].
  - reflexivity.
  - concrete_NoDup.
  - concrete_NoDup.
  - simpl. lia.
  - simpl. lia.
  - split; [apply Hb|]; by split.
Defined.

(** ** Sorting and trimming, whatever the book was *)

Section Trim.
Variable parseFloat : string → number.
Variable comparefn : level → level → number.
Hypothesis comparefn_trans : ∀ x y z,
  numeric_price parseFloat y →
  before comparefn x y → before comparefn y z → before comparefn x z.
Hypothesis comparefn_total : ∀ x y,
  gt_zero (comparefn x y) = true → before comparefn y x.

Lemma patchedMap_numeric entries current :
  Forall (numeric_price parseFloat) (entries ++ current) →
  Forall (numeric_price parseFloat) (patchedMap parseFloat entries current).
Proof.
  intros [He Hc]%Forall_app. unfold patchedMap.
  apply applyEntries_Forall; [|by apply Map_new_Forall].
  eapply Forall_impl; [exact He|]. auto.
Qed.

Lemma patchSide_normalised depth entries current :
  entries ≠ [] →
  Forall (numeric_price parseFloat) (entries ++ current) →
  let side := patchSide parseFloat comparefn depth entries current in
  StronglySorted (before comparefn) side ∧ distinct_keys side
  ∧ (length side ≤ depth)%nat.
Proof.
  intros Hne Hnum side. unfold side. rewrite patchSide_patchedMap by done.
  set (M := patchedMap parseFloat entries current).
  pose proof (sort_StronglySorted comparefn _ comparefn_trans comparefn_total M
                (patchedMap_numeric _ _ Hnum)) as HS.
  split; [|split].
  - rewrite <- (take_drop depth (sort comparefn M)) in HS.
    by apply StronglySorted_app_1_l in HS.
  - unfold distinct_keys. rewrite fmap_take.
    eapply sublist_NoDup; [|apply sublist_take].
    rewrite sort_Permutation. apply applyEntries_NoDup, Map_new_NoDup.
  - rewrite length_take. lia.
Qed.

Lemma patchSide_best_of depth entries current :
  entries ≠ [] →
  Forall (numeric_price parseFloat) (entries ++ current) →
  best_of (before comparefn) depth
    (patchSide parseFloat comparefn depth entries current)
    (patchedMap parseFloat entries current).
Proof.
  intros Hne Hnum. rewrite patchSide_patchedMap by done.
  set (M := patchedMap parseFloat entries current).
  pose proof (sort_StronglySorted comparefn _ comparefn_trans comparefn_total M
                (patchedMap_numeric _ _ Hnum)) as HS.
  split; [|split].
  - intros x Hx. apply subseteq_take in Hx. by rewrite sort_Permutation in Hx.
  - rewrite length_take.
    by rewrite (Permutation_length (sort_Permutation comparefn M)).
  - intros k x Hk Hx Hnx.
    rewrite <- (take_drop depth (sort comparefn M)) in HS.
    eapply StronglySorted_app_1_elem_of; [exact HS|done|].
    rewrite <- (sort_Permutation comparefn M) in Hx.
    rewrite <- (take_drop depth (sort comparefn M)) in Hx.
    apply elem_of_app in Hx as [Hx|Hx]; done.
Qed.
End Trim.

(** Property X12.  A side that a delta patches comes out in order whatever the
    book was before: with prices that parse to numbers, the new bids descend,
    the new asks ascend, no price string is twice on the side and the side is
    at most [depth] long, also when the old side was out of order, repeated a
    price or was longer than the depth. *)
Theorem applyDelta_normalises (parseFloat : string → number) (depth : nat)
    (clk : Clock) (d : Data) (B : OrderBook) :
  is_one (or_else (data_u d) (updateId B)) = false →
  Forall (numeric_price parseFloat) (or_empty (data_b d) ++ bids B) →
  Forall (numeric_price parseFloat) (or_empty (data_a d) ++ asks B) →
  let B' := applyDelta parseFloat depth clk d B in
  (or_empty (data_b d) ≠ [] →
   descending parseFloat (bids B') ∧ distinct_keys (bids B')
   ∧ (length (bids B') ≤ depth)%nat)
  ∧ (or_empty (data_a d) ≠ [] →
     ascending parseFloat (asks B') ∧ distinct_keys (asks B')
     ∧ (length (asks B') ≤ depth)%nat).
Proof.
  intros Hu Hb Ha B'. unfold B'. rewrite applyDelta_patch by done.
  cbn [bids asks]. split; intros Hne.
  - apply (patchSide_normalised parseFloat (compareBids parseFloat)
             (compareBids_trans parseFloat) (compareBids_total parseFloat));
      done.
  - apply (patchSide_normalised parseFloat (compareAsks parseFloat)
             (compareAsks_trans parseFloat) (compareAsks_total parseFloat));
      done.
Qed.

Lemma applyDelta_normalises_witness :
  let B' := applyDelta hostParseFloat 3 clock1 mixed_delta disordered_book in
  ¬ descending hostParseFloat (bids disordered_book)
  ∧ ¬ distinct_keys (bids disordered_book)
  ∧ descending hostParseFloat (bids B') ∧ distinct_keys (bids B')
  ∧ (length (bids B') ≤ 3)%nat
  ∧ ascending hostParseFloat (asks B').
Proof.
  intros B'.
  destruct (applyDelta_normalises hostParseFloat 3 clock1 mixed_delta
              disordered_book) as [Hb Ha].
  - reflexivity.
  - repeat constructor.
  - repeat constructor.
  - destruct Hb as (Hb1 & Hb2 & Hb3); [done|].
    destruct Ha as (Ha1 & _); [done|].
    split; [|split; [|done]].
    + intros H. change (bids disordered_book) with
        [("98", "1"); ("100", "5"); ("99", "2"); ("100", "6"); ("97", "3")] in H.
      apply StronglySorted_inv in H as [_ H].
      apply Forall_cons in H as [H _]. discriminate H.
    + unfold distinct_keys. intros H.
      change (bids disordered_book).*1 with ["98"; "100"; "99"; "100"; "97"] in H.
      apply NoDup_cons in H as [_ H]. apply NoDup_cons in H as [H _].
      apply H. set_solver.
Defined.

(** Property X13.  Trimming keeps the best: of the levels that are in the
    patched map of a side, the new side holds the first [depth] in price
    order, so every level it holds has a price at least as high (bids) or at
    least as low (asks) as every level it leaves out, and nothing is left out
    while the side is shorter than [depth]. *)
Theorem applyDelta_keeps_best (parseFloat : string → number) (depth : nat)
    (clk : Clock) (d : Data) (B : OrderBook) :
  is_one (or_else (data_u d) (updateId B)) = false →
  Forall (numeric_price parseFloat) (or_empty (data_b d) ++ bids B) →
  Forall (numeric_price parseFloat) (or_empty (data_a d) ++ asks B) →
  let B' := applyDelta parseFloat depth clk d B in
  (or_empty (data_b d) ≠ [] →
   best_of (λ k x, num_le (parseFloat x.1) (parseFloat k.1)) depth
     (bids B') (patchedMap parseFloat (or_empty (data_b d)) (bids B)))
  ∧ (or_empty (data_a d) ≠ [] →
     best_of (λ k x, num_le (parseFloat k.1) (parseFloat x.1)) depth
       (asks B') (patchedMap parseFloat (or_empty (data_a d)) (asks B))).
Proof.
  intros Hu Hb Ha B'. unfold B'. rewrite applyDelta_patch by done.
  cbn [bids asks]. split; intros Hne.
  - apply (patchSide_best_of parseFloat (compareBids parseFloat)
             (compareBids_trans parseFloat) (compareBids_total parseFloat));
      done.
  - apply (patchSide_best_of parseFloat (compareAsks parseFloat)
             (compareAsks_trans parseFloat) (compareAsks_total parseFloat));
      done.
Qed.

Lemma applyDelta_keeps_best_witness :
  let B' := applyDelta hostParseFloat 3 clock1 mixed_delta disordered_book in
  best_of (λ k x, num_le (hostParseFloat x.1) (hostParseFloat k.1)) 3
    (bids B')
    (patchedMap hostParseFloat (or_empty (data_b mixed_delta))
       (bids disordered_book))
  ∧ length (bids B') = 3%nat.
Proof.
  intros B'. subst B'.
  destruct (applyDelta_keeps_best hostParseFloat 3 clock1 mixed_delta
              disordered_book) as [Hb _].
  - reflexivity.
  - repeat constructor.
  - repeat constructor.
  - split; [by apply Hb|]. destruct Hb as (_ & Hlen & _); [done|].
    rewrite Hlen. reflexivity.
Defined.

(** ** The two hooks over a run of messages *)

Lemma Auto_applyDelta_fst parseFloat depth sourceInfo clk d B :
  Auto.depth sourceInfo = Some depth →
  (Auto.applyDelta parseFloat sourceInfo clk d B).1
  = applyDelta parseFloat depth clk d B.
Proof.
  intros Hd. unfold Auto.applyDelta, applyDelta.
  rewrite Hd. destruct (is_one _); simpl; [done|].
  by destruct (data_b d) as [[|??]|], (data_a d) as [[|??]|].
Qed.



(** Property X14.  With a source of the table ([L50], [L200], [L1000]) the
    auto hook and the plain hook at that depth show the same book and the same
    loading flag after any run of messages, message by message from their
    initial states. *)
Theorem hooks_agree_on_runs (parseFloat : string → number) (symbol : string)
    (manualSource : string) (depth : nat) (msgs : list (Clock * Message)) :
  Auto.depths manualSource = Some depth →
  let auto :=
    AutoHook.handleAll parseFloat symbol (Auto.sourceInfo manualSource) msgs
      AutoHook.initialState in
  let plain := handleAll parseFloat symbol depth msgs initialState in
  AutoHook.rawOrderBook auto = orderBook plain
  ∧ AutoHook.isLoading auto = isLoading plain.
Proof.
  intros Hd.
  assert (Hgen : ∀ a h,
    AutoHook.rawOrderBook a = orderBook h → AutoHook.isLoading a = isLoading h →
    AutoHook.paused a = paused h →
    AutoHook.rawOrderBook
      (AutoHook.handleAll parseFloat symbol (Auto.sourceInfo manualSource) msgs a)
    = orderBook (handleAll parseFloat symbol depth msgs h)
    ∧ AutoHook.isLoading
        (AutoHook.handleAll parseFloat symbol (Auto.sourceInfo manualSource) msgs a)
      = isLoading (handleAll parseFloat symbol depth msgs h)).
  { induction msgs as [|[clk m] msgs IH]; intros a h Hb Hl Hp; [done|].
    unfold AutoHook.handleAll, handleAll in *. cbn [fold_left].
    cbn [fst snd].
    assert (Hstep :
      AutoHook.rawOrderBook
        (AutoHook.handleMessage parseFloat symbol (Auto.sourceInfo manualSource)
           clk a m)
      = orderBook (handleMessage parseFloat symbol depth clk h m)
      ∧ AutoHook.isLoading
          (AutoHook.handleMessage parseFloat symbol (Auto.sourceInfo manualSource)
             clk a m)
        = isLoading (handleMessage parseFloat symbol depth clk h m)
      ∧ AutoHook.paused
          (AutoHook.handleMessage parseFloat symbol (Auto.sourceInfo manualSource)
             clk a m)
        = paused (handleMessage parseFloat symbol depth clk h m)).
    { unfold AutoHook.handleMessage, handleMessage. rewrite Hp.
      destruct (paused h) eqn:Hph; [split_and!; congruence|].
      destruct (msg_topic m) as [topic|]; [|split_and!; congruence].
      cbn [Auto.sourceInfo Auto.depth]. rewrite Hd. cbn [AutoHook.depthString].
      destruct (_ || _); [split_and!; congruence|].
      case_bool_decide; [done|].
      case_bool_decide; [|split_and!; congruence].
      pose proof (Auto_applyDelta_fst parseFloat depth
                    (Auto.sourceInfo manualSource) clk (msg_data m)
                    (AutoHook.rawOrderBook a)) as Hf.
      destruct (Auto.applyDelta _ _ _ _ _) as [newBook price].
      cbn [AutoHook.rawOrderBook AutoHook.isLoading AutoHook.paused orderBook
             isLoading paused].
      rewrite <- Hb. split; [|done]. apply Hf. exact Hd. }
    destruct Hstep as (H1 & H2 & H3). by apply IH. }
  intros auto plain. by apply Hgen.
Qed.

Lemma hooks_agree_on_runs_witness :
  Auto.depths "L200" = Some 200%nat ∧
  AutoHook.rawOrderBook
    (AutoHook.handleAll hostParseFloat "BTCUSDT" (Auto.sourceInfo "L200")
       sample_feed AutoHook.initialState)
  = orderBook (handleAll hostParseFloat "BTCUSDT" 200 sample_feed initialState).
Proof.
  split; [reflexivity|].
  apply (hooks_agree_on_runs hostParseFloat "BTCUSDT" "L200" 200 sample_feed).
  reflexivity.
Defined.

(** ** The current price of the auto hook *)





(** Property X16.  A delta with the restart mark replaces the book the auto
    hook shows but not its current price: the listener takes the delta's sides
    as the new book and leaves the current price as it was, whatever the new
    best bid is. *)
Theorem restart_delta_keeps_currentPrice (parseFloat : string → number)
    (symbol : string) (sourceInfo : Auto.SourceInfo) (depth : nat)
    (clk : Clock) (st : AutoHook.State) (m : Message) :
  AutoHook.paused st = false →
  Auto.depth sourceInfo = Some depth → addressed symbol depth m →
  msg_type m = Some "delta" →
  is_one (or_else (data_u (msg_data m)) (updateId (AutoHook.rawOrderBook st)))
    = true →
  let st' := AutoHook.handleMessage parseFloat symbol sourceInfo clk st m in
  bids (AutoHook.rawOrderBook st') = or_empty (data_b (msg_data m))
  ∧ asks (AutoHook.rawOrderBook st') = or_empty (data_a (msg_data m))
  ∧ AutoHook.currentPrice st' = AutoHook.currentPrice st.
Proof.
  intros Hp Hd Ha Hty Hone st'. unfold st', AutoHook.handleMessage.
  rewrite Hp. apply addressed_filter in Ha as (topic & Ht & Hf).
  rewrite Ht, Hd. cbn [AutoHook.depthString]. rewrite Hf.
  rewrite bool_decide_false by (rewrite Hty; discriminate).
  rewrite (bool_decide_true (msg_type m = Some "delta")) by done.
  unfold Auto.applyDelta. rewrite Hone. done.
Qed.

Lemma restart_delta_keeps_currentPrice_witness :
  let m := dataMessage "orderbook.200.BTCUSDT" "delta" restart_with_bid in
  let st' :=
    AutoHook.handleMessage hostParseFloat "BTCUSDT" (Auto.sourceInfo "L200")
      clock1 auto_showing m in
  addressed "BTCUSDT" 200 m ∧
  bids (AutoHook.rawOrderBook st') = [("90", "1")] ∧
  AutoHook.currentPrice st' = Some (hostParseFloat "100").
Proof.
  intros m st'.
  assert (Ha : addressed "BTCUSDT" 200 m).
  { exists "orderbook.200.BTCUSDT". by split_and!. }
  split; [exact Ha|].
  destruct (restart_delta_keeps_currentPrice hostParseFloat "BTCUSDT"
              (Auto.sourceInfo "L200") 200 clock1 auto_showing m)
    as (Hb & _ & Hc); try reflexivity; [exact Ha|].
  split; [exact Hb|exact Hc].
Defined.

(** ** Source selection *)

Lemma js_lt_Fin_trans x p q :
  (p <= q)%Q → js_lt x (Fin p) = true → js_lt x (Fin q) = true.
Proof.
  intros Hpq. destruct x as [| |r|]; simpl; try done.
  rewrite !negb_true_iff. intros Hr.
  destruct (Qle_bool q r) eqn:E; [|done].
  apply Qle_bool_iff in E.
  assert (Hle : Qle_bool p r = true)
    by (apply Qle_bool_iff; by apply (Qle_trans _ q)).
  congruence.
Qed.

(** Property X17.  [selectSourceAutomatic] never selects [L50]: it answers
    [L200] at depth 200 exactly for a tick size below 5 and [L1000] at depth
    1000 for every other tick size, NaN included; it expects at least 100
    levels, so it gives no warning unless more than 100 levels are asked for. *)
Theorem selectSourceAutomatic_never_L50 (tickSize minLevels : number) :
  let r := AutoGrouping.selectSourceAutomatic tickSize minLevels in
  AutoGrouping.source r ≠ "L50"
  ∧ (js_lt tickSize (Fin 5) = true →
     AutoGrouping.source r = "L200" ∧ AutoGrouping.depth r = Some 200%nat)
  ∧ (js_lt tickSize (Fin 5) = false →
     AutoGrouping.source r = "L1000" ∧ AutoGrouping.depth r = Some 1000%nat)
  ∧ (js_lt (Fin 100) minLevels = false → AutoGrouping.warning r = None).
Proof.
  intros r. unfold r, AutoGrouping.selectSourceAutomatic.
  assert (Hw : ∀ n : nat, (100 ≤ n)%nat → js_lt (Fin 100) minLevels = false →
               js_lt (Fin (inject_Z (Z.of_nat n))) minLevels = false).
  { intros n Hn. destruct minLevels as [| |q|]; simpl; try done.
    rewrite !negb_false_iff. intros H%Qle_bool_iff. apply Qle_bool_iff.
    eapply Qle_trans; [exact H|]. change 100%Q with (inject_Z 100).
    rewrite <- Zle_Qle. lia. }
  destruct (js_lt tickSize (Fin AutoGrouping.lit_0_01)) eqn:E1.
  { assert (H5 : js_lt tickSize (Fin 5) = true)
      by (eapply js_lt_Fin_trans; [|exact E1]; done).
    cbn [AutoGrouping.source AutoGrouping.depth AutoGrouping.warning].
    split_and!; [done|done|congruence|by intros ->%(Hw 100%nat)]. }
  destruct (js_lt tickSize (Fin (1 # 2))) eqn:E2.
  { assert (H5 : js_lt tickSize (Fin 5) = true)
      by (eapply js_lt_Fin_trans; [|exact E2]; done).
    cbn [AutoGrouping.source AutoGrouping.depth AutoGrouping.warning].
    split_and!; [done|done|congruence|by intros ->%(Hw 100%nat)]. }
  destruct (js_lt tickSize (Fin 5)) eqn:E3.
  { cbn [AutoGrouping.source AutoGrouping.depth AutoGrouping.warning].
    split_and!; [done|done|done|by intros ->%(Hw 100%nat)]. }
  destruct (js_lt tickSize (Fin 50));
    cbn [AutoGrouping.source AutoGrouping.depth AutoGrouping.warning];
    (split_and!; [done|done|done|intros ->%(Hw 200%nat); [done|lia]]).
Qed.

(** ** The frontend's connection *)

Lemma provider_step_offline p e :
  ¬ is_SocketOpen e → WebSocketProvider.is_open p = false →
  WebSocketProvider.is_open (provider_step p e) = false
  ∧ WebSocketProvider.wire (provider_step p e) = WebSocketProvider.wire p
  ∧ WebSocketProvider.pendingSubscribes (provider_step p e)
    = WebSocketProvider.pendingSubscribes p ++ subscribe_frames [e].
Proof.
  intros He Hp. destruct e as [| | | |symbols depth|symbols depth];
    cbn [provider_step subscribe_frames omap].
  - unfold WebSocketProvider.connect. rewrite Hp.
    destruct (WebSocketProvider.connecting p); simpl;
      by rewrite ?app_nil_r.
  - by destruct He.
  - by rewrite app_nil_r.
  - unfold WebSocketProvider.heartbeat. rewrite Hp. by rewrite app_nil_r.
  - unfold WebSocketProvider.subscribe, WebSocketProvider.sendMessage.
    rewrite Hp. done.
  - unfold WebSocketProvider.unsubscribe. rewrite Hp. simpl.
    by rewrite app_nil_r.
Qed.

Lemma provider_run_offline es p :
  Forall (λ e, ¬ is_SocketOpen e) es → WebSocketProvider.is_open p = false →
  WebSocketProvider.is_open (provider_run es p) = false
  ∧ WebSocketProvider.wire (provider_run es p) = WebSocketProvider.wire p
  ∧ WebSocketProvider.pendingSubscribes (provider_run es p)
    = WebSocketProvider.pendingSubscribes p ++ subscribe_frames es.
Proof.
  intros Hes. revert p. induction Hes as [|e es He Hes IH]; intros p Hp.
  - unfold subscribe_frames. simpl. by rewrite app_nil_r.
  - unfold provider_run in *. cbn [fold_left].
    destruct (provider_step_offline p e He Hp) as (Ho & Hw & Hq).
    destruct (IH _ Ho) as (Ho' & Hw' & Hq').
    rewrite Ho', Hw', Hq', Hw, Hq.
    split_and!; [done|done|].
    rewrite <- app_assoc. f_equal.
    change (e :: es) with ([e] ++ es). unfold subscribe_frames.
    by rewrite omap_app.
Qed.

(** Property X18.  While the frontend's socket is not open nothing is sent,
    every subscribe request is queued and every unsubscribe request is
    dropped; when the socket opens, what was queued is sent in the order of
    the requests and the queue is empty. An unsubscribe made while
    disconnected does not take the earlier subscribe out of the queue. *)
Theorem queued_subscribes_sent_on_open (es : list ProviderEvent)
    (p : WebSocketProvider.Provider) :
  Forall (λ e, ¬ is_SocketOpen e) es → WebSocketProvider.is_open p = false →
  WebSocketProvider.wire (provider_run es p) = WebSocketProvider.wire p
  ∧ WebSocketProvider.wire (WebSocketProvider.onopen (provider_run es p))
    = WebSocketProvider.wire p ++ WebSocketProvider.pendingSubscribes p
        ++ subscribe_frames es
  ∧ WebSocketProvider.pendingSubscribes
      (WebSocketProvider.onopen (provider_run es p)) = [].
Proof.
  intros Hes Hp. destruct (provider_run_offline es p Hes Hp) as (_ & Hw & Hq).
  split_and!; [done| |done].
  unfold WebSocketProvider.onopen. cbn [WebSocketProvider.wire].
  by rewrite Hw, Hq.
Qed.

Lemma queued_subscribes_sent_on_open_witness :
  WebSocketProvider.wire
    (WebSocketProvider.onopen (provider_run offline_calls WebSocketProvider.new))
  = [WebSocketProvider.Request "subscribe" ["BTCUSDT"] 200].
Proof.
  destruct (queued_subscribes_sent_on_open offline_calls WebSocketProvider.new)
    as (_ & Hw & _).
  - repeat constructor; intros [].
  - reflexivity.
  - exact Hw.
Defined.

(** ** From a hook's request to the upstream subscription *)

Lemma append_nil_r (s : string) : (s ++ "")%string = s.
Proof.
  induction s as [|c s IH]; [done|].
  change (String c s ++ "")%string with (String c (s ++ "")). by rewrite IH.
Qed.

Lemma addressed_own_topic symbol depth m :
  msg_topic m = Some (topic_of symbol depth) → addressed symbol depth m.
Proof.
  intros Ht. exists (topic_of symbol depth). split_and!; [done|done| |].
  - assert (E : topic_of symbol depth
                = (("orderbook." ++ Number_toString depth ++ ".")
                     ++ symbol ++ "")%string)
      by (unfold topic_of; by rewrite append_nil_r, !append_assoc).
    rewrite E. apply includes_append.
  - assert (E : topic_of symbol depth
                = (("orderbook." ++ Number_toString depth ++ ".") ++ symbol)%string)
      by (unfold topic_of; by rewrite !append_assoc).
    rewrite E.
    apply (includes_append ("orderbook." ++ Number_toString depth ++ ".") ""
             symbol).
Qed.

Lemma bybitWs_client_send ws x p : bybitWs (client_send ws x p) = bybitWs p.
Proof. done. Qed.

Lemma subscribedSymbols_client_send ws x p :
  subscribedSymbols (client_send ws x p) = subscribedSymbols p.
Proof. done. Qed.

Lemma handleClientMessage_subscribe_upstream now ws symbols depth p :
  let p' := handleClientMessage now ws (subscribe_request symbols depth) p in
  let p1 := subscribeToSymbols symbols (orderDepth (Some depth)) p in
  bybitWs p' = bybitWs p1 ∧ subscribedSymbols p' = subscribedSymbols p1.
Proof.
  intros p' p1. unfold p'.
  rewrite (handleClientMessage_subscribe now ws _ symbols) by done.
  rewrite bybitWs_client_send, subscribedSymbols_client_send.
  apply send_cached_snapshots_frame.
Qed.

Lemma handleClientMessage_unsubscribe now ws symbols depth p :
  handleClientMessage now ws (unsubscribe_request symbols depth) p
  = unsubscribeFromSymbols symbols (orderDepth (Some depth)) p.
Proof. done. Qed.

Lemma orderDepth_pos depth : (0 < depth)%nat → orderDepth (Some depth) = depth.
Proof. by destruct depth; [lia|]. Qed.

Lemma subscribeToSymbols_one_fresh symbol depth p :
  is_open p = true → key_of symbol depth ∉ subscribedSymbols p →
  subscribeToSymbols [symbol] depth p =
    set_subscribedSymbols (subscribedSymbols p ++ [key_of symbol depth])
      (bybit_send (Subscribe [topic_of symbol depth]) p).
Proof.
  intros Ho Hk. rewrite subscribeToSymbols_open by done.
  rewrite filter_cons_True by done. rewrite filter_nil.
  cbn [fold_left fmap list_fmap subscribedSymbols bybit_send].
  unfold Set_add. by rewrite bool_decide_false.
Qed.

(** Property X19.  What a hook asks for is what its listener takes. When both
    connections are open and the depth is not 0, the frame that
    [subscribe(symbol, depth)] of the frontend sends makes the proxy, for a
    key it does not hold yet, send upstream one subscription, to the topic
    [orderbook.<depth>.<symbol>], and record the key; and every message on
    that topic passes the listener of the hook for that symbol and depth. *)
Theorem subscription_reaches_listener (symbol : string) (depth : nat)
    (now : Z) (ws : nat) (p : WebSocketProvider.Provider) (q : BybitProxy) :
  WebSocketProvider.is_open p = true → is_open q = true → (0 < depth)%nat →
  key_of symbol depth ∉ subscribedSymbols q →
  ∃ frame,
    WebSocketProvider.wire
      (WebSocketProvider.subscribe (WebSocketProvider.One symbol) (Some depth) p).2
    = WebSocketProvider.wire p ++ [frame]
    ∧ (let q' := handleClientMessage now ws (parse_frame frame) q in
       upstream_sent q' = upstream_sent q ++ [Subscribe [topic_of symbol depth]]
       ∧ subscribedSymbols q' = subscribedSymbols q ++ [key_of symbol depth])
    ∧ ∀ type data,
        addressed symbol depth (dataMessage (topic_of symbol depth) type data).
Proof.
  intros Hp Hq Hd Hk.
  exists (WebSocketProvider.Request "subscribe" [symbol] depth). split_and!.
  - unfold WebSocketProvider.subscribe, WebSocketProvider.sendMessage.
    by rewrite Hp.
  - change (parse_frame (WebSocketProvider.Request "subscribe" [symbol] depth))
      with (subscribe_request [symbol] depth).
    destruct (handleClientMessage_subscribe_upstream now ws [symbol] depth q)
      as [Hws Hss].
    rewrite orderDepth_pos in Hws, Hss by done.
    rewrite subscribeToSymbols_one_fresh in Hws, Hss by done.
    split; [|exact Hss].
    unfold upstream_sent. rewrite Hws.
    apply is_open_true in Hq as (bws & Hb & _).
    cbn [bybitWs set_subscribedSymbols bybit_send]. by rewrite Hb.
  - intros type data. by apply addressed_own_topic.
Qed.

Lemma subscription_reaches_listener_witness :
  ∃ frame,
    WebSocketProvider.wire
      (WebSocketProvider.subscribe (WebSocketProvider.One "BTCUSDT") (Some 200%nat)
         (WebSocketProvider.onopen WebSocketProvider.new)).2
    = [frame]
    ∧ upstream_sent (handleClientMessage 0 0 (parse_frame frame) proxy_ready)
      = upstream_sent proxy_ready ++ [Subscribe ["orderbook.200.BTCUSDT"]].
Proof.
  destruct (subscription_reaches_listener "BTCUSDT" 200 0 0
              (WebSocketProvider.onopen WebSocketProvider.new) proxy_ready)
    as (frame & Hw & [Hu _] & _).
  - reflexivity.
  - reflexivity.
  - lia.
  - vm_compute. intros H. by apply elem_of_nil in H.
  - exists frame. split; [exact Hw|exact Hu].
Defined.

(** ** Subscriptions are the proxy's, not a client's *)

Lemma is_open_subscribeToSymbols symbols depth p :
  is_open (subscribeToSymbols symbols depth p) = is_open p.
Proof.
  unfold subscribeToSymbols. destruct (is_open p) eqn:Ho; [|done]. simpl.
  destruct (filter _ symbols); [done|].
  by rewrite is_open_set_subscribedSymbols, is_open_bybit_send.
Qed.

Lemma is_open_handleClientMessage_subscribe now ws symbols depth p :
  is_open (handleClientMessage now ws (subscribe_request symbols depth) p)
  = is_open p.
Proof.
  destruct (handleClientMessage_subscribe_upstream now ws symbols depth p)
    as [Hws _].
  unfold is_open at 1. rewrite Hws.
  apply is_open_subscribeToSymbols.
Qed.

Lemma subscribeToSymbols_key symbol depth p :
  is_open p = true →
  key_of symbol depth ∈ subscribedSymbols (subscribeToSymbols [symbol] depth p).
Proof.
  intros Ho. destruct (decide (key_of symbol depth ∈ subscribedSymbols p)) as [Hk|Hk].
  - rewrite subscribeToSymbols_open by done.
    rewrite filter_cons_False by (intros H; by apply H). by rewrite filter_nil.
  - rewrite subscribeToSymbols_one_fresh by done.
    cbn [subscribedSymbols set_subscribedSymbols].
    apply elem_of_app. right. by left.
Qed.

(** Property X20.  The proxy keeps one subscription per symbol and depth, not
    one per client: after two clients have subscribed to the same symbol and
    depth, the unsubscribe of either of them makes the proxy unsubscribe
    upstream and forget the key, although the other client has not
    unsubscribed. *)
Theorem unsubscribe_is_not_per_client (symbol : string) (depth : nat)
    (now1 now2 now3 : Z) (ws1 ws2 : nat) (p : BybitProxy) :
  is_open p = true → (0 < depth)%nat →
  let p1 := handleClientMessage now1 ws1 (subscribe_request [symbol] depth) p in
  let p2 := handleClientMessage now2 ws2 (subscribe_request [symbol] depth) p1 in
  let p3 := handleClientMessage now3 ws1 (unsubscribe_request [symbol] depth) p2 in
  key_of symbol depth ∈ subscribedSymbols p2
  ∧ (key_of symbol depth ∉ subscribedSymbols p3)
  ∧ upstream_sent p3
    = upstream_sent p2 ++ [Unsubscribe [topic_of symbol depth]].
Proof.
  intros Ho Hd p1 p2 p3.
  assert (Ho1 : is_open p1 = true)
    by (unfold p1; by rewrite is_open_handleClientMessage_subscribe).
  assert (Ho2 : is_open p2 = true)
    by (unfold p2; by rewrite is_open_handleClientMessage_subscribe).
  assert (Hk2 : key_of symbol depth ∈ subscribedSymbols p2).
  { unfold p2.
    destruct (handleClientMessage_subscribe_upstream now2 ws2 [symbol] depth p1)
      as [_ ->].
    rewrite orderDepth_pos by done. by apply subscribeToSymbols_key. }
  split; [exact Hk2|].
  unfold p3. rewrite handleClientMessage_unsubscribe, orderDepth_pos by done.
  rewrite unsubscribeFromSymbols_open by done.
  rewrite filter_cons_True by done. rewrite filter_nil.
  cbn [fold_left fmap list_fmap subscribedSymbols set_subscribedSymbols].
  split.
  - unfold Set_delete. rewrite list_elem_of_filter. intros [H _]. by apply H.
  - unfold upstream_sent.
    apply is_open_true in Ho2 as (bws & Hb & _).
    cbn [bybitWs set_subscribedSymbols bybit_send]. by rewrite Hb.
Qed.

Lemma unsubscribe_is_not_per_client_witness :
  let p1 := handleClientMessage 0 0 (subscribe_request ["BTCUSDT"] 200) proxy_ready in
  let p2 := handleClientMessage 0 1 (subscribe_request ["BTCUSDT"] 200) p1 in
  let p3 := handleClientMessage 0 0 (unsubscribe_request ["BTCUSDT"] 200) p2 in
  subscribedSymbols p2 = ["BTCUSDT-200"] ∧
  key_of "BTCUSDT" 200 ∉ subscribedSymbols p3.
Proof.
  intros p1 p2 p3.
  destruct (unsubscribe_is_not_per_client "BTCUSDT" 200 0 0 0 0 1 proxy_ready)
    as (_ & Hk & _).
  - reflexivity.
  - lia.
  - split; [reflexivity|exact Hk].
Defined.

(** ** The user store *)

Section UsersFacts.
Context {Value : Type}.
Implicit Types (users : list (Users.User Value)) (prefs : Users.Preferences Value).

Lemma findUser_assignPreferences_eq name prefs users u :
  Users.findUser Value name users = Some u →
  Users.findUser Value name (Users.assignPreferences Value name prefs users)
  = Some {| Users.username := Users.username Value u;
            Users.password := Users.password Value u;
            Users.enabled := Users.enabled Value u;
            Users.preferences := prefs |}.
Proof.
  induction users as [|u0 users IH]; [done|]. cbn [Users.findUser Users.assignPreferences].
  case_bool_decide as E.
  - intros [= ->]. cbn [Users.findUser Users.username]. by rewrite bool_decide_true.
  - intros Hf. cbn [Users.findUser]. rewrite bool_decide_false by done. by apply IH.
Qed.

Lemma findUser_assignPreferences_ne name other prefs users :
  other ≠ name →
  Users.findUser Value other (Users.assignPreferences Value name prefs users)
  = Users.findUser Value other users.
Proof.
  intros Hne. induction users as [|u0 users IH]; [done|].
  cbn [Users.findUser Users.assignPreferences].
  case_bool_decide as E.
  - cbn [Users.findUser Users.username]. rewrite E.
    by rewrite !bool_decide_false by done.
  - cbn [Users.findUser]. by rewrite IH.
Qed.

(** Property X21.  Updating preferences merges, for one user only. For a known
    user the update succeeds and reading the preferences back gives the fields
    sent, and for every field not sent the value stored before; for an unknown
    user it fails and the store is as it was. The preferences of every other
    user name are left as they were. *)
Theorem updateUserPreferences_get (name : string) prefs users :
  let r := Users.updateUserPreferences Value name prefs users in
  match Users.getUserPreferences Value name users with
  | Some old =>
      r.1 = true
      ∧ ∃ new, Users.getUserPreferences Value name r.2 = Some new
               ∧ ∀ field, new !! field
                          = match prefs !! field with
                            | Some v => Some v
                            | None => old !! field
                            end
  | None => r = (false, users)
  end
  ∧ ∀ other, other ≠ name →
      Users.getUserPreferences Value other r.2
      = Users.getUserPreferences Value other users.
Proof.
  intros r. unfold r, Users.updateUserPreferences, Users.getUserPreferences.
  destruct (Users.findUser Value name users) as [u|] eqn:Hf; cbn [fmap option_fmap option_map fst snd].
  - split.
    + split; [done|]. eexists. split.
      * by erewrite findUser_assignPreferences_eq.
      * intros field. cbn [Users.preferences].
        unfold Users.spread, Users.Preferences in *.
        rewrite lookup_union. by destruct (prefs !! field), (_ !! field).
    + intros other Hne. by rewrite findUser_assignPreferences_ne.
  - done.
Qed.

(** Property X22.  No update of preferences changes who can log in: the
    credentials that [validateCredentials] accepts after an update, by any
    user name and with any fields, are those it accepted before, and it
    answers with the same user name. *)
Theorem updateUserPreferences_keeps_credentials (name login pass : string)
    prefs users :
  let users' := (Users.updateUserPreferences Value name prefs users).2 in
  Users.pub_username Value <$> Users.validateCredentials Value login pass users'
  = Users.pub_username Value <$> Users.validateCredentials Value login pass users.
Proof.
  intros users'. unfold users', Users.updateUserPreferences.
  destruct (Users.findUser Value name users) as [u|] eqn:Hf; [|done].
  cbn [snd]. unfold Users.validateCredentials.
  destruct (decide (login = name)) as [->|Hne].
  - erewrite findUser_assignPreferences_eq by done. rewrite Hf.
    cbn [Users.enabled Users.password Users.username].
    destruct (Users.enabled Value u); [|done]. simpl.
    by case_bool_decide.
  - by rewrite findUser_assignPreferences_ne.
Qed.
End UsersFacts.

(** ** A source outside the table *)






(** ** The shape of the book over a run *)

Lemma or_empty_default (l : option (list level)) : or_empty l = default [] l.
Proof. by destruct l. Qed.

Section Shape.
Variable parseFloat : string → number.
Variable comparefn : level → level → number.
Hypothesis comparefn_trans : ∀ x y z,
  numeric_price parseFloat y →
  before comparefn x y → before comparefn y z → before comparefn x z.
Hypothesis comparefn_total : ∀ x y,
  gt_zero (comparefn x y) = true → before comparefn y x.

Lemma patchSide_sorted_setting depth entries current :
  setting_numeric parseFloat entries →
  Forall (numeric_price parseFloat) current →
  StronglySorted (before comparefn) current →
  StronglySorted (before comparefn)
    (patchSide parseFloat comparefn depth entries current).
Proof.
  intros He Hc Hs. destruct entries as [|e entries]; [done|].
  unfold patchSide, slice0. set (M := fold_left _ _ _).
  assert (HM : Forall (numeric_price parseFloat) M)
    by (apply applyEntries_Forall; [done|by apply Map_new_Forall]).
  pose proof (sort_StronglySorted comparefn _ comparefn_trans comparefn_total M HM)
    as HS.
  rewrite <- (take_drop depth (sort comparefn M)) in HS.
  by apply StronglySorted_app_1_l in HS.
Qed.

Lemma patchSide_side_ok (inOrder : list level → Prop) depth entries current :
  (∀ l, inOrder l ↔ StronglySorted (before comparefn) l) →
  setting_numeric parseFloat entries →
  side_ok parseFloat inOrder depth current →
  side_ok parseFloat inOrder depth
    (patchSide parseFloat comparefn depth entries current).
Proof.
  intros Hord He (H1 & H2 & H3 & H4 & H5). split_and!.
  - by apply patchSide_nonzero.
  - by apply patchSide_length.
  - apply Hord. apply patchSide_sorted_setting; [done|done|by apply Hord].
  - by apply patchSide_distinct_keys.
  - by apply patchSide_Forall.
Qed.
End Shape.

Lemma addressed_dec symbol depth m :
  addressed symbol depth m ∨ ¬ addressed symbol depth m.
Proof.
  rewrite addressed_filter. destruct (msg_topic m) as [topic|].
  - destruct (bool_decide (topic = "") || negb (includes symbol topic)
              || negb (includes ("orderbook." ++ Number_toString depth ++ ".")
                         topic)) eqn:E.
    + right. intros (t & [= <-] & Hf). congruence.
    + left. by exists topic.
  - right. by intros (t & [=] & _).
Qed.

Lemma handleMessage_dropped parseFloat symbol depth clk st m :
  ¬ addressed symbol depth m →
  handleMessage parseFloat symbol depth clk st m = st.
Proof.
  intros Hna. unfold handleMessage. destruct (paused st); [done|].
  destruct (msg_topic m) as [topic|] eqn:Ht; [|done].
  destruct (_ || _) eqn:Hf; [done|].
  exfalso. apply Hna, addressed_filter. by exists topic.
Qed.

Lemma handleMessage_other_type parseFloat symbol depth clk st m :
  msg_type m ≠ Some "snapshot" → msg_type m ≠ Some "delta" →
  handleMessage parseFloat symbol depth clk st m = st.
Proof.
  intros Hs Hd. unfold handleMessage. destruct (paused st); [done|].
  destruct (msg_topic m) as [topic|]; [|done].
  destruct (_ || _); [done|]. by rewrite !bool_decide_false.
Qed.

Section ShapeOverRuns.
Variable parseFloat : string → number.

Lemma applyDelta_patch_book_ok depth clk d B :
  is_one (or_else (data_u d) (updateId B)) = false →
  setting_numeric parseFloat (default [] (data_b d)) →
  setting_numeric parseFloat (default [] (data_a d)) →
  book_ok parseFloat depth B →
  book_ok parseFloat depth (applyDelta parseFloat depth clk d B).
Proof.
  intros Hu Hb Ha [HBb HBa]. rewrite applyDelta_patch by done.
  rewrite !or_empty_default. split; cbn [bids asks].
  - by apply (patchSide_side_ok parseFloat (compareBids parseFloat)
                (compareBids_trans parseFloat) (compareBids_total parseFloat)).
  - by apply (patchSide_side_ok parseFloat (compareAsks parseFloat)
                (compareAsks_trans parseFloat) (compareAsks_total parseFloat)).
Qed.

Lemma handleMessage_fits symbol depth clk st m :
  message_fits parseFloat symbol depth st m →
  book_ok parseFloat depth (orderBook st) →
  book_ok parseFloat depth
    (orderBook (handleMessage parseFloat symbol depth clk st m)).
Proof.
  intros [Hwhole Hpatch] Hst.
  destruct (paused st) eqn:Hp.
  { unfold handleMessage. by rewrite Hp. }
  destruct (addressed_dec symbol depth m) as [Ha|Ha].
  2:{ by rewrite handleMessage_dropped. }
  destruct (decide (msg_type m = Some "snapshot")) as [Hs|Hs].
  { rewrite (handleMessage_snapshot parseFloat symbol depth clk st m) by done.
    unfold applySnapshot, book_ok. cbn [bids asks]. rewrite !or_empty_default.
    apply Hwhole. split_and!; [done|done|by left]. }
  destruct (decide (msg_type m = Some "delta")) as [Hd|Hd].
  2:{ by rewrite handleMessage_other_type. }
  rewrite (handleMessage_delta parseFloat symbol depth clk st m) by done.
  destruct (is_one (or_else (data_u (msg_data m)) (updateId (orderBook st))))
    eqn:E.
  - rewrite applyDelta_sentinel by done.
    unfold book_ok. cbn [bids asks]. rewrite !or_empty_default.
    apply Hwhole. split_and!; [done|done|by right].
  - destruct Hpatch as [Hb Hask]; [by split_and!|].
    by apply applyDelta_patch_book_ok.
Qed.

Lemma handleAll_fits symbol depth msgs st :
  run_fits parseFloat symbol depth msgs st →
  book_ok parseFloat depth (orderBook st) →
  book_ok parseFloat depth
    (orderBook (handleAll parseFloat symbol depth msgs st)).
Proof.
  revert st. induction msgs as [|[clk m] msgs IH]; intros st Hrun Hst; [done|].
  destruct Hrun as [Hm Hrun]. unfold handleAll in *. cbn [fold_left].
  apply IH; [done|]. by apply handleMessage_fits.
Qed.
End ShapeOverRuns.

(** Claim C1, as the hook maintains it.  From the uninitialized book, after
    any sequence of messages in which every message that the listener takes
    as a whole book (a snapshot, or a delta whose update id, its own or else
    the book's, is 1) carries sides free of zero sizes, at most [depth]
    long, in order, with one level per price string and numeric prices, and
    every delta that is patched in has numeric prices on the entries that
    set a level: both sides have no zero-size level and at most [depth]
    levels, bids are in descending and asks in ascending order of parsed
    price, ties between different strings of one price allowed, and no price
    string occurs twice on a side.  Nothing is asked of a message the
    listener drops. *)
Theorem handleAll_invariant (parseFloat : string → number) (symbol : string)
    (depth : nat) (msgs : list (Clock * Message)) :
  run_fits parseFloat symbol depth msgs initialState →
  let B := orderBook (handleAll parseFloat symbol depth msgs initialState) in
  Forall (nonzero_size parseFloat) (bids B) ∧
  Forall (nonzero_size parseFloat) (asks B) ∧
  (length (bids B) ≤ depth)%nat ∧ (length (asks B) ≤ depth)%nat ∧
  descending parseFloat (bids B) ∧ ascending parseFloat (asks B) ∧
  distinct_keys (bids B) ∧ distinct_keys (asks B).
Proof.
  intros Hrun B.
  destruct (handleAll_fits parseFloat symbol depth msgs initialState Hrun)
    as [(? & ? & ? & ? & ?) (? & ? & ? & ? & ?)]; [apply emptyBook_ok|].
  by split_and!.
Qed.

Lemma handleAll_invariant_witness :
  run_fits hostParseFloat "BTCUSDT" 50 mixed_run initialState ∧
  let B := orderBook (handleAll hostParseFloat "BTCUSDT" 50 mixed_run initialState) in
  Forall (nonzero_size hostParseFloat) (asks B) ∧
  (length (asks B) ≤ 50)%nat ∧ ascending hostParseFloat (asks B).
Proof.
  assert (Hrun : run_fits hostParseFloat "BTCUSDT" 50 mixed_run initialState).
  { split; [|split; [|split; [|exact I]]].
    - split.
      + intros _.
        split; (split_and!; [repeat constructor|simpl; lia|repeat constructor|
                             concrete_NoDup|repeat constructor]).
      + intros (_ & _ & Hty & _). discriminate Hty.
    - split.
      + intros (_ & (topic & Ht & _ & Hs & _) & _).
        injection Ht as <-. discriminate Hs.
      + intros (_ & (topic & Ht & _ & Hs & _) & _).
        injection Ht as <-. discriminate Hs.
    - split.
      + intros (_ & _ & [Hty|[_ Hone]]); [discriminate Hty|].
        vm_compute in Hone. discriminate Hone.
      + intros _. split; [|constructor].
        apply Forall_cons. split; [|constructor]. intros _. reflexivity. }
  split; [exact Hrun|].
  destruct (handleAll_invariant hostParseFloat "BTCUSDT" 50 mixed_run Hrun)
    as (_ & H2 & _ & H4 & _ & H6 & _).
  by split_and!.
Defined.

(** ** A delta before any snapshot, in full *)

Lemma patchSide_fresh parseFloat comparefn depth entries :
  Forall (nonzero_size parseFloat) entries → distinct_keys entries →
  (length entries ≤ depth)%nat →
  patchSide parseFloat comparefn depth entries [] ≡ₚ entries.
Proof.
  intros Hnz Hnd Hlen. destruct entries as [|e entries]; [done|].
  unfold patchSide, slice0. rewrite applyEntries_nonzero by done.
  change (Map_new []) with (@nil level).
  rewrite Map_setAll_fresh by done. simpl app.
  rewrite take_ge by (by rewrite sort_Permutation).
  apply sort_Permutation.
Qed.

(** Claim C3, as the hook does it.  A delta that arrives while the book is
    still uninitialized is not rejected: the listener hands it to
    [applyDelta] with the empty book and the hook goes on reporting that it
    is loading; the book's update id becomes the delta's [u], and stays
    unset when the delta has none or [0]; and on each side, when the delta's
    entries for it have non-zero sizes and distinct price strings and are
    at most [depth], those entries are the levels of the side. *)
Theorem delta_before_snapshot_applied (parseFloat : string → number)
    (symbol : string) (depth : nat) (clk : Clock) (m : Message) :
  addressed symbol depth m → msg_type m = Some "delta" →
  let b := default [] (data_b (msg_data m)) in
  let a := default [] (data_a (msg_data m)) in
  let st := handleMessage parseFloat symbol depth clk initialState m in
  orderBook st = applyDelta parseFloat depth clk (msg_data m) emptyBook
  ∧ isLoading st = true
  ∧ (∀ u, data_u (msg_data m) = Some u → u ≠ 0%Z →
       updateId (orderBook st) = Some u)
  ∧ (data_u (msg_data m) = None ∨ data_u (msg_data m) = Some 0%Z →
     updateId (orderBook st) = None)
  ∧ (Forall (nonzero_size parseFloat) b → distinct_keys b →
     (length b ≤ depth)%nat → bids (orderBook st) ≡ₚ b)
  ∧ (Forall (nonzero_size parseFloat) a → distinct_keys a →
     (length a ≤ depth)%nat → asks (orderBook st) ≡ₚ a).
Proof.
  intros Ha Hty b a st.
  assert (Hst : st = {| orderBook := applyDelta parseFloat depth clk (msg_data m)
                                       emptyBook;
                        isLoading := true; paused := false |}).
  { unfold st, handleMessage. cbn [paused initialState].
    apply addressed_filter in Ha as (topic & Ht & Hf). rewrite Ht, Hf.
    rewrite bool_decide_false by (rewrite Hty; discriminate).
    by rewrite bool_decide_true. }
  rewrite Hst. cbn [orderBook isLoading]. split; [done|]. split; [done|].
  destruct (is_one (or_else (data_u (msg_data m)) (updateId emptyBook))) eqn:E.
  - rewrite applyDelta_sentinel by done. cbn [updateId bids asks].
    change (or_empty (data_b (msg_data m))) with b.
    change (or_empty (data_a (msg_data m))) with a.
    split_and!; [| |done|done].
    + intros u Hu Hu0. rewrite Hu in E. cbn in E.
      apply Z.eqb_neq in Hu0. rewrite Hu0 in E. cbn in E.
      apply Z.eqb_eq in E. by subst.
    + intros [Hu|Hu]; rewrite Hu in E; discriminate E.
  - rewrite applyDelta_patch by done. cbn [updateId bids asks emptyBook].
    change (or_empty (data_b (msg_data m))) with b.
    change (or_empty (data_a (msg_data m))) with a.
    split_and!.
    + intros u Hu Hu0. rewrite Hu. cbn. apply Z.eqb_neq in Hu0. by rewrite Hu0.
    + by intros [->| ->].
    + intros. by apply patchSide_fresh.
    + intros. by apply patchSide_fresh.
Qed.

Lemma delta_before_snapshot_applied_witness :
  let m := dataMessage sample_topic "delta" first_delta in
  let st := handleMessage hostParseFloat "BTCUSDT" 50 clock0 initialState m in
  addressed "BTCUSDT" 50 m ∧
  isLoading st = true ∧ updateId (orderBook st) = Some 11%Z ∧
  bids (orderBook st) ≡ₚ [("100", "5"); ("99", "2")] ∧
  asks (orderBook st) ≡ₚ [("101", "3")].
Proof.
  intros m st.
  assert (Ha : addressed "BTCUSDT" 50 m).
  { exists sample_topic. by split_and!. }
  split; [exact Ha|].
  destruct (delta_before_snapshot_applied hostParseFloat "BTCUSDT" 50 clock0 m
              Ha eq_refl) as (_ & Hl & Hu & _ & Hb & Hask).
  split_and!; [exact Hl| | |].
  - apply (Hu 11%Z); [reflexivity|discriminate].
  - apply Hb; [repeat constructor|concrete_NoDup|simpl; lia].
  - apply Hask; [repeat constructor|concrete_NoDup|simpl; lia].
Defined.

(** ** Removing a level, in any delta and on both sides *)

Section Upsert.
Variable parseFloat : string → number.





End Upsert.



(** ** Replaying a delta, in full *)

Section Replay.
Variable parseFloat : string → number.

Lemma patchSide_replayed comparefn depth entries current :
  Forall (nonzero_size parseFloat) entries →
  replayed depth entries (patchSide parseFloat comparefn depth entries current).
Proof.
  intros Hnz. split.
  - intros price size Hin Hk. apply last_size_elem_of.
    by apply (patchSide_size parseFloat comparefn depth entries current
                (price, size) Hnz Hin).
  - intros price size Hl.
    assert (Hne : entries ≠ []) by (by intros ->).
    rewrite patchSide_patchedMap by done.
    set (M := patchedMap parseFloat entries current).
    assert (HM : (price, size) ∈ M).
    { apply Map_get_elem_of;
        [unfold M, patchedMap; apply applyEntries_NoDup, Map_new_NoDup|].
      unfold M, patchedMap. rewrite Map_get_patched, Hl.
      apply last_size_elem_of in Hl.
      eapply Forall_forall in Hnz; [|exact Hl].
      unfold nonzero_size in Hnz. cbn in Hnz. by rewrite Hnz. }
    destruct (decide (length M ≤ depth)%nat) as [Hle|Hgt].
    + left. rewrite take_ge
        by (by rewrite (Permutation_length (sort_Permutation comparefn M))).
      by rewrite sort_Permutation.
    + right. rewrite length_take.
      rewrite (Permutation_length (sort_Permutation comparefn M)). lia.
Qed.

Lemma entries_replayed depth entries : replayed depth entries entries.
Proof.
  split; [done|]. intros price size Hl. left. by apply last_size_elem_of.
Qed.

Lemma patchSide_trimmed_for_better comparefn depth entries current :
  (∀ x y z, numeric_price parseFloat y →
     before comparefn x y → before comparefn y z → before comparefn x z) →
  (∀ x y, gt_zero (comparefn x y) = true → before comparefn y x) →
  Forall (nonzero_size parseFloat) entries →
  Forall (numeric_price parseFloat) (entries ++ current) →
  trimmed_for_better (before comparefn) entries
    (patchSide parseFloat comparefn depth entries current).
Proof.
  intros Htrans Htotal Hnz Hnum price size kept Hl Hout Hkept.
  assert (Hne : entries ≠ []) by (by intros ->).
  destruct (patchSide_best_of parseFloat comparefn Htrans Htotal depth entries
              current Hne Hnum) as (_ & _ & Hbest).
  apply Hbest; [done| |done].
  apply Map_get_elem_of;
    [unfold patchedMap; apply applyEntries_NoDup, Map_new_NoDup|].
  unfold patchedMap. rewrite Map_get_patched, Hl.
  apply last_size_elem_of in Hl.
  eapply Forall_forall in Hnz; [|exact Hl].
  unfold nonzero_size in Hnz. cbn in Hnz. by rewrite Hnz.
Qed.
End Replay.

(** Claim C6, as the hook does it.  Apply a delta whose entries all have
    non-zero sizes twice in succession, with or without the restart mark.
    The sizes are the delta's, not sums: a level of the result at a price
    the delta names is one of the delta's entries, and every price the delta
    names has a level with the size of its last entry, unless the side is
    full with [depth] levels.  When the prices of the book and of the delta
    parse to numbers, the bid and ask levels after the second application
    are those after the first, and a named price is without level only where
    every level kept is at least as good. *)
Theorem applyDelta_replay (parseFloat : string → number) (depth : nat)
    (clk clk' : Clock) (d : Data) (B : OrderBook) :
  let b := default [] (data_b d) in
  let a := default [] (data_a d) in
  Forall (nonzero_size parseFloat) (b ++ a) →
  let B1 := applyDelta parseFloat depth clk d B in
  let B2 := applyDelta parseFloat depth clk' d B1 in
  replayed depth b (bids B2) ∧ replayed depth a (asks B2) ∧
  (Forall (numeric_price parseFloat) (b ++ a ++ bids B ++ asks B) →
   bids B2 = bids B1 ∧ asks B2 = asks B1 ∧
   trimmed_for_better (λ k x, num_le (parseFloat x.1) (parseFloat k.1)) b (bids B2) ∧
   trimmed_for_better (λ k x, num_le (parseFloat k.1) (parseFloat x.1)) a (asks B2)).
Proof.
  intros b a [Hzb Hza]%Forall_app B1 B2.
  destruct (is_one (or_else (data_u d) (updateId B))) eqn:E.
  - assert (HB1 : B1 = {| bids := or_empty (data_b d); asks := or_empty (data_a d);
                          timestamp := Some (or_num (data_ts d) (now_ts clk));
                          updateId := Some 1%Z;
                          lastUpdate := Some (now_upd clk) |})
      by by apply applyDelta_sentinel.
    assert (E' : is_one (or_else (data_u d) (updateId B1)) = true).
    { rewrite HB1. simpl. destruct (data_u d) as [v|]; simpl; [|done].
      by destruct (v =? 0)%Z eqn:Ev; simpl in *; rewrite ?Ev in *. }
    unfold B2. rewrite (applyDelta_sentinel _ _ _ _ _ E'), HB1.
    cbn [bids asks].
    change (or_empty (data_b d)) with b. change (or_empty (data_a d)) with a.
    split_and!; [apply entries_replayed|apply entries_replayed|].
    intros _. split_and!; [done|done| |].
    + intros price size kept Hl Hout. exfalso. apply Hout.
      by apply last_size_elem_of.
    + intros price size kept Hl Hout. exfalso. apply Hout.
      by apply last_size_elem_of.
  - assert (HB1 : B1 = {| bids := patchSide parseFloat (compareBids parseFloat) depth
                                    (or_empty (data_b d)) (bids B);
                          asks := patchSide parseFloat (compareAsks parseFloat) depth
                                    (or_empty (data_a d)) (asks B);
                          timestamp := Some (or_num (data_ts d) (now_ts clk));
                          updateId := or_else (data_u d) (updateId B);
                          lastUpdate := Some (now_upd clk) |})
      by by apply applyDelta_patch.
    assert (E' : is_one (or_else (data_u d) (updateId B1)) = false).
    { rewrite HB1. simpl. by rewrite or_else_idemp. }
    unfold B2. rewrite (applyDelta_patch _ _ _ _ _ E'), HB1.
    cbn [bids asks].
    change (or_empty (data_b d)) with b. change (or_empty (data_a d)) with a.
    split_and!; [by apply patchSide_replayed|by apply patchSide_replayed|].
    intros [Hnb [Hna [HBb HBa]%Forall_app]%Forall_app]%Forall_app.
    split_and!.
    + by apply (patchSide_twice parseFloat _ (compareBids_trans parseFloat)
                  (compareBids_total parseFloat)).
    + by apply (patchSide_twice parseFloat _ (compareAsks_trans parseFloat)
                  (compareAsks_total parseFloat)).
    + apply (patchSide_trimmed_for_better parseFloat (compareBids parseFloat));
        [apply compareBids_trans|apply compareBids_total|done|].
      apply Forall_app. split; [done|]. by apply patchSide_numeric.
    + apply (patchSide_trimmed_for_better parseFloat (compareAsks parseFloat));
        [apply compareAsks_trans|apply compareAsks_total|done|].
      apply Forall_app. split; [done|]. by apply patchSide_numeric.
Qed.

Lemma applyDelta_replay_witness :
  let B1 := applyDelta hostParseFloat 50 clock0 upsert_delta two_level_book in
  let B2 := applyDelta hostParseFloat 50 clock1 upsert_delta B1 in
  ("100", "7") ∈ bids B2 ∧ ("98.5", "1") ∈ bids B2 ∧ ("101", "4") ∈ asks B2 ∧
  bids B2 = bids B1 ∧ asks B2 = asks B1.
Proof.
  intros B1 B2.
  destruct (applyDelta_replay hostParseFloat 50 clock0 clock1 upsert_delta
              two_level_book) as ([_ Hb] & [_ Ha] & Hsame).
  - repeat constructor.
  - destruct Hsame as (Hb2 & Ha2 & _); [repeat constructor|].
    assert (Hlen : ∀ l : list level, l = bids B2 ∨ l = asks B2 → length l ≠ 50%nat).
    { intros l [-> | ->]; vm_compute; lia. }
    split_and!; [| | |exact Hb2|exact Ha2].
    + destruct (Hb "100" "7") as [H|H]; [reflexivity|exact H|].
      exfalso. by apply (Hlen (bids B2)); [left|].
    + destruct (Hb "98.5" "1") as [H|H]; [reflexivity|exact H|].
      exfalso. by apply (Hlen (bids B2)); [left|].
    + destruct (Ha "101" "4") as [H|H]; [reflexivity|exact H|].
      exfalso. by apply (Hlen (asks B2)); [right|].
Defined.

(** The claim as stated fails where the trim cuts: at depth 1 a delta for a
    lower bid price, applied twice, leaves that price without level, so it
    has no final size; and where a delta names a price twice, the final
    size is that of the later entry. *)
Lemma applyDelta_replay_counterexample :
  (let B2 := applyDelta hostParseFloat 1 clock1 lower_bid_delta
               (applyDelta hostParseFloat 1 clock0 lower_bid_delta one_level_book) in
   data_u lower_bid_delta ≠ Some 1%Z ∧
   Forall (nonzero_size hostParseFloat) (data_b_entries lower_bid_delta) ∧
   ("99", "2") ∈ data_b_entries lower_bid_delta ∧
   bids B2 = [("100", "5")] ∧ ("99" ∉ (bids B2).*1)) ∧
  (let B2 := applyDelta hostParseFloat 50 clock1 twice_named_delta
               (applyDelta hostParseFloat 50 clock0 twice_named_delta one_level_book) in
   ("99", "2") ∈ data_b_entries twice_named_delta ∧
   bids B2 = [("100", "5"); ("99", "3")]).
Proof.
  split.
  - split_and!; [discriminate|repeat constructor|by left|reflexivity|].
    change (bids _).*1 with ["100"]. intros H.
    apply list_elem_of_singleton in H. discriminate H.
  - split; [by left|reflexivity].
Qed.

(** ** The restart sentinel *)

(** Claim C7.  A delta carrying update id 1 is applied as a full replacement,
    whatever the current book: the new bids are the delta's bid list and the
    new asks its ask list, none where the delta has none; nothing of the
    current levels stays; the update id is 1, the timestamp the delta's, or
    the reading of [Date.now()] when the delta has none or [0]. *)
Theorem applyDelta_restart (parseFloat : string → number) (depth : nat)
    (clk : Clock) (d : Data) (B : OrderBook) :
  data_u d = Some 1%Z →
  let B' := applyDelta parseFloat depth clk d B in
  (∀ b, data_b d = Some b → bids B' = b) ∧ (data_b d = None → bids B' = []) ∧
  (∀ a, data_a d = Some a → asks B' = a) ∧ (data_a d = None → asks B' = []) ∧
  updateId B' = Some 1%Z ∧
  (∀ t, data_ts d = Some t → t ≠ 0%Z → timestamp B' = Some t) ∧
  (data_ts d = None ∨ data_ts d = Some 0%Z → timestamp B' = Some (now_ts clk)) ∧
  lastUpdate B' = Some (now_upd clk).
Proof.
  intros Hu B'. unfold B'.
  rewrite applyDelta_sentinel by (by rewrite Hu).
  cbn [bids asks updateId timestamp lastUpdate]. split_and!; try done.
  - by intros b ->.
  - by intros ->.
  - by intros a ->.
  - by intros ->.
  - intros t -> Ht. simpl. apply Z.eqb_neq in Ht. by rewrite Ht.
  - by intros [-> | ->].
Qed.

Lemma applyDelta_restart_witness :
  let B' := applyDelta hostParseFloat 50 clock1 restart_delta two_level_book in
  bids two_level_book = [("100", "5"); ("99", "2")] ∧
  bids B' = [("100", "0")] ∧ asks B' = [("102", "1")] ∧
  updateId B' = Some 1%Z ∧ timestamp B' = Some 1700000000030%Z.
Proof.
  intros B'.
  destruct (applyDelta_restart hostParseFloat 50 clock1 restart_delta
              two_level_book eq_refl) as (Hb & _ & Ha & _ & Hu & Ht & _).
  split_and!; [reflexivity| | |exact Hu|].
  - by apply Hb.
  - by apply Ha.
  - by apply Ht.
Defined.
